(** * Spacecraft attitude estimation and control: the notebook's design pipeline

    A shallow embedding of [kam_SpacecraftDemo-Template.ipynb]: the symbolic
    derivation of the dynamics model [f] and of the sensor model [g], the
    linearizer [get_model], the pole-placement design cells and the
    [Controller] class, followed by the properties proved about them.

    Python floats are modelled by real numbers; a float that is not finite
    (inf or nan, the outcome of a division by zero under numpy) is [None]
    in the type [value].  SymPy expressions are trees, evaluated by [eval]
    and differentiated by [diff]. *)

From Stdlib Require Import Reals Lra List ZArith QArith Bool Lia.
From Stdlib Require String.
Import ListNotations.
Open Scope R_scope.

(** ** Python results *)

Module Py.

(** The exceptions the notebook's cells can end with. *)
Inductive exn : Type :=
| NameError
| TypeError
| ValueError
| AttributeError
| SyntaxError.

Definition result (A : Type) : Type := (exn + A)%type.

Definition ok {A : Type} (a : A) : result A := inr a.
Definition raise {A : Type} (e : exn) : result A := inl e.

Definition bind {A B : Type} (r : result A) (k : A -> result B) : result B :=
  match r with
  | inl e => inl e
  | inr a => k a
  end.

Definition is_error {A : Type} (r : result A) : Prop :=
  match r with inl _ => True | inr _ => False end.

End Py.

Notation "x <- c1 ;; c2" := (Py.bind c1 (fun x => c2))
  (at level 61, c1 at next level, right associativity).

(** ** SymPy expressions *)

Module Sym.

(** The symbols created with [sym.symbols] in the notebook. *)
Inductive symbol : Type :=
| psi | theta | phi
| w_x | w_y | w_z
| tau_1 | tau_2 | tau_3 | tau_4
| alpha | delta.

Definition symbol_eqb (a b : symbol) : bool :=
  match a, b with
  | psi, psi | theta, theta | phi, phi
  | w_x, w_x | w_y, w_y | w_z, w_z
  | tau_1, tau_1 | tau_2, tau_2 | tau_3, tau_3 | tau_4, tau_4
  | alpha, alpha | delta, delta => true
  | _, _ => false
  end.

Inductive expr : Type :=
| Int (z : Z)
| Var (s : symbol)
| Add (a b : expr)
| Sub (a b : expr)
| Mul (a b : expr)
| Div (a b : expr)
| Neg (a : expr)
| Sqrt (a : expr)
| Sin (a : expr)
| Cos (a : expr)
| Tan (a : expr).

(** An assignment of numbers to the symbols. *)
Definition env : Type := symbol -> R.

Definition upd (rho : env) (s : symbol) (x : R) : env :=
  fun t => if symbol_eqb s t then x else rho t.

(** The real number an expression denotes (division is Rocq's total
    division; [evalf] below is the evaluation that can fail). *)
Fixpoint eval (rho : env) (e : expr) : R :=
  match e with
  | Int z => IZR z
  | Var s => rho s
  | Add a b => eval rho a + eval rho b
  | Sub a b => eval rho a - eval rho b
  | Mul a b => eval rho a * eval rho b
  | Div a b => eval rho a / eval rho b
  | Neg a => - eval rho a
  | Sqrt a => sqrt (eval rho a)
  | Sin a => sin (eval rho a)
  | Cos a => cos (eval rho a)
  | Tan a => tan (eval rho a)
  end.

(** A float: [Some x] is the finite number [x], [None] is inf or nan. *)
Definition value : Type := option R.

Definition lift2 (op : R -> R -> R) (x y : value) : value :=
  match x, y with
  | Some a, Some b => Some (op a b)
  | _, _ => None
  end.

Definition lift1 (op : R -> R) (x : value) : value :=
  match x with
  | Some a => Some (op a)
  | None => None
  end.

Definition fdiv (x y : value) : value :=
  match x, y with
  | Some a, Some b => if Req_dec_T b 0 then None else Some (a / b)
  | _, _ => None
  end.

Definition fsqrt (x : value) : value :=
  match x with
  | Some a => if Rlt_dec a 0 then None else Some (sqrt a)
  | None => None
  end.

(** Numeric evaluation as the lambdified code performs it: a division by
    zero (also inside [tan]) or the root of a negative number leaves a
    non-finite float, and non-finite operands stay non-finite under
    [+], [-] and [*]. *)
Fixpoint evalf (rho : env) (e : expr) : value :=
  match e with
  | Int z => Some (IZR z)
  | Var s => Some (rho s)
  | Add a b => lift2 Rplus (evalf rho a) (evalf rho b)
  | Sub a b => lift2 Rminus (evalf rho a) (evalf rho b)
  | Mul a b => lift2 Rmult (evalf rho a) (evalf rho b)
  | Div a b => fdiv (evalf rho a) (evalf rho b)
  | Neg a => lift1 Ropp (evalf rho a)
  | Sqrt a => fsqrt (evalf rho a)
  | Sin a => lift1 sin (evalf rho a)
  | Cos a => lift1 cos (evalf rho a)
  | Tan a => fdiv (lift1 sin (evalf rho a)) (lift1 cos (evalf rho a))
  end.

(** Where an expression is differentiable: no zero denominator, and
    only positive numbers under a root. *)
Fixpoint smooth (rho : env) (e : expr) : Prop :=
  match e with
  | Int _ | Var _ => True
  | Add a b | Sub a b | Mul a b => smooth rho a /\ smooth rho b
  | Div a b => smooth rho a /\ smooth rho b /\ eval rho b <> 0
  | Neg a | Sin a | Cos a => smooth rho a
  | Sqrt a => smooth rho a /\ 0 < eval rho a
  | Tan a => smooth rho a /\ cos (eval rho a) <> 0
  end.

Fixpoint occurs (s : symbol) (e : expr) : bool :=
  match e with
  | Int _ => false
  | Var t => symbol_eqb s t
  | Add a b | Sub a b | Mul a b | Div a b => occurs s a || occurs s b
  | Neg a | Sqrt a | Sin a | Cos a | Tan a => occurs s a
  end.

(** *** Automatic evaluation of [0 + x], [0 * x], [1 * x] and [0 / x]

    SymPy never keeps these in a result; the derivative below is built
    with them so that a derivative that vanishes is the literal [0]. *)

Definition is_zero (e : expr) : bool :=
  match e with Int 0 => true | _ => false end.

Definition is_one (e : expr) : bool :=
  match e with Int 1 => true | _ => false end.

Definition mkNeg (a : expr) : expr :=
  if is_zero a then Int 0 else Neg a.

Definition mkAdd (a b : expr) : expr :=
  if is_zero a then b else if is_zero b then a else Add a b.

Definition mkSub (a b : expr) : expr :=
  if is_zero b then a else if is_zero a then mkNeg b else Sub a b.

Definition mkMul (a b : expr) : expr :=
  if is_zero a || is_zero b then Int 0
  else if is_one a then b
  else if is_one b then a
  else Mul a b.

Definition mkDiv (a b : expr) : expr :=
  if is_zero a then Int 0 else Div a b.

(** [e.diff(s)] *)
Fixpoint diff (s : symbol) (e : expr) : expr :=
  match e with
  | Int _ => Int 0
  | Var t => if symbol_eqb s t then Int 1 else Int 0
  | Add a b => mkAdd (diff s a) (diff s b)
  | Sub a b => mkSub (diff s a) (diff s b)
  | Mul a b => mkAdd (mkMul (diff s a) b) (mkMul a (diff s b))
  | Div a b =>
      mkDiv (mkSub (mkMul (diff s a) b) (mkMul a (diff s b))) (Mul b b)
  | Neg a => mkNeg (diff s a)
  | Sqrt a => mkDiv (diff s a) (Mul (Int 2) (Sqrt a))
  | Sin a => mkMul (diff s a) (Cos a)
  | Cos a => mkNeg (mkMul (diff s a) (Sin a))
  | Tan a => mkMul (diff s a) (Add (Mul (Tan a) (Tan a)) (Int 1))
  end.


(** *** Matrices of expressions

    A SymPy matrix is the list of its rows; [Matrix([])] is the empty
    list and has shape (0, 0). *)
Definition matrix : Type := list (list expr).

Definition nrows (m : matrix) : nat := length m.

Definition ncols (m : matrix) : nat :=
  match m with
  | [] => 0
  | r :: _ => length r
  end.

(** [m[i, j]] *)
Definition entry (m : matrix) (i j : nat) : expr :=
  nth j (nth i m []) (Int 0).

Definition column (m : matrix) (j : nat) : list expr :=
  map (fun r => nth j r (Int 0)) m.

(** [m.T] *)
Definition transpose (m : matrix) : matrix :=
  map (column m) (seq 0 (ncols m)).

Definition sum_expr (l : list expr) : expr :=
  match l with
  | [] => Int 0
  | x :: rest => fold_left Add rest x
  end.

Definition dot (u v : list expr) : expr :=
  sum_expr (map (fun p => Mul (fst p) (snd p)) (combine u v)).

(** [a * b] and [a @ b] on matrices *)
Definition mmul (a b : matrix) : matrix :=
  map (fun r => map (fun j => dot r (column b j)) (seq 0 (ncols b))) a.

(** [c * m] for a scalar [c] *)
Definition smul (c : expr) (m : matrix) : matrix :=
  map (map (Mul c)) m.

(** [a + b] on matrices *)
Definition madd (a b : matrix) : matrix :=
  map (fun p => map (fun q => Add (fst q) (snd q)) (combine (fst p) (snd p)))
      (combine a b).

(** [Matrix.hstack] and [Matrix.vstack] *)
Definition hstack (a b : matrix) : matrix :=
  map (fun p => fst p ++ snd p) (combine a b).

Definition vstack (a b : matrix) : matrix := a ++ b.

(** [m.inv()] of a 3 x 3 matrix, by cofactors over the determinant. *)
Definition inv (m : matrix) : matrix :=
  match m with
  | [[a; b; c]; [d; e; f]; [g; h; i]] =>
      let det :=
        Add (Sub (Mul a (Sub (Mul e i) (Mul f h)))
                 (Mul b (Sub (Mul d i) (Mul f g))))
            (Mul c (Sub (Mul d h) (Mul e g))) in
      [[Div (Sub (Mul e i) (Mul f h)) det;
        Div (Sub (Mul c h) (Mul b i)) det;
        Div (Sub (Mul b f) (Mul c e)) det];
       [Div (Sub (Mul f g) (Mul d i)) det;
        Div (Sub (Mul a i) (Mul c g)) det;
        Div (Sub (Mul c d) (Mul a f)) det];
       [Div (Sub (Mul d h) (Mul e g)) det;
        Div (Sub (Mul b g) (Mul a h)) det;
        Div (Sub (Mul a e) (Mul b d)) det]]
  | _ => m
  end.

(** [m.jacobian(X)]: [m] has to be a row or a column, SymPy raises
    [TypeError] for any other shape; row [j] holds the derivatives of
    the [j]-th entry with respect to the symbols of [X]. *)
Definition jacobian (m : matrix) (X : list symbol) : Py.result matrix :=
  if (nrows m =? 1)%nat then
    Py.ok (map (fun e => map (fun x => diff x e) X) (nth 0 m []))
  else if (ncols m =? 1)%nat then
    Py.ok (map (fun e => map (fun x => diff x e) X) (column m 0))
  else Py.raise Py.TypeError.

(** A numpy array of floats, as a list of rows. *)
Definition ndarray : Type := list (list value).

(** The array of floats that a matrix evaluates to, and the reals its
    entries denote. *)
Definition numeric (rho : env) (m : matrix) : ndarray :=
  map (map (evalf rho)) m.

Definition eval_matrix (rho : env) (m : matrix) : list (list R) :=
  map (map (eval rho)) m.

Fixpoint bind_args (params : list symbol) (args : list R) (s : symbol) : R :=
  match params, args with
  | p :: ps, a :: rest => if symbol_eqb p s then a else bind_args ps rest s
  | _, _ => 0
  end.

Definition all_symbols : list symbol :=
  [psi; theta; phi; w_x; w_y; w_z; tau_1; tau_2; tau_3; tau_4; alpha; delta].

Definition bound_in (params : list symbol) (e : expr) : bool :=
  forallb (fun s => negb (occurs s e) || existsb (symbol_eqb s) params)
          all_symbols.

(** [sym.lambdify(params, m)] applied to [args]: a call with the wrong
    number of arguments raises [TypeError], a symbol of [m] that is not
    a parameter is an undefined name in the generated code. *)
Definition lambdify (params : list symbol) (m : matrix) (args : list R)
  : Py.result ndarray :=
  if negb (length args =? length params)%nat then Py.raise Py.TypeError
  else if forallb (forallb (bound_in params)) m
       then Py.ok (numeric (bind_args params args) m)
       else Py.raise Py.NameError.

Definition finite (x : value) : Prop := exists r : R, x = Some r.

(** Every symbol at zero: the equilibrium of cell 6, with a star on the
    boresight. *)
Definition zero_env : env := fun _ => 0.

Definition all_finite (a : ndarray) : Prop := Forall (Forall finite) a.

End Sym.

Declare Scope expr_scope.
Delimit Scope expr_scope with E.
Bind Scope expr_scope with Sym.expr.
Notation "a + b" := (Sym.Add a b) : expr_scope.
Notation "a - b" := (Sym.Sub a b) : expr_scope.
Notation "a * b" := (Sym.Mul a b) : expr_scope.
Notation "a / b" := (Sym.Div a b) : expr_scope.
Notation "- a" := (Sym.Neg a) : expr_scope.
Coercion Sym.Var : Sym.symbol >-> Sym.expr.

(** ** The dynamics and sensor models (cells 4 and 5) *)

Module Model.
Import Sym.
Local Open Scope Q_scope.

(** Mass and moments of inertia of the base, then of each wheel; the
    decimal literals of the notebook are kept as exact rationals. *)
Definition mb : Q := 6.
Definition Jxb : Q := 10.
Definition Jyb : Q := 10.
Definition Jzb : Q := 16.

Definition mw : Q := 1.
Definition Jxw : Q := 75 # 1000.
Definition Jyw : Q := 75 # 1000.
Definition Jzw : Q := 125 # 1000.
Definition lw : Q := 11 # 10.

(** [sym.nsimplify] of a number: the rational in lowest terms. *)
Definition nsimplify (q : Q) : expr :=
  let q' := Qred q in
  match Qden q' with
  | xH => Int (Qnum q')
  | d => Div (Int (Qnum q')) (Int (Zpos d))
  end.

Local Close Scope Q_scope.
Local Open Scope expr_scope.

(** Resultant torques *)
Definition lt : expr := nsimplify lw * Sqrt (Int 2) / Int 2.
Definition T1 : matrix := smul (- tau_1) [[lt]; [Int 0]; [lt]].
Definition T2 : matrix := smul (- tau_2) [[- lt]; [Int 0]; [lt]].
Definition T3 : matrix := smul (- tau_3) [[Int 0]; [lt]; [lt]].
Definition T4 : matrix := smul (- tau_4) [[Int 0]; [- lt]; [lt]].
Definition T : matrix := madd (madd (madd T1 T2) T3) T4.

(** Moments of inertia of spacecraft and wheels together *)
Definition Jx : expr := nsimplify (Jxb + 4 * mw * lw ^ 2)%Q.
Definition Jy : expr := nsimplify (Jyb + 4 * mw * lw ^ 2)%Q.
Definition Jz : expr := nsimplify (Jzb + 4 * mw * lw ^ 2)%Q.

(** Rotation matrices *)
Definition Rz : matrix :=
  [[Cos psi; - Sin psi; Int 0]; [Sin psi; Cos psi; Int 0]; [Int 0; Int 0; Int 1]].
Definition Ry : matrix :=
  [[Cos theta; Int 0; Sin theta]; [Int 0; Int 1; Int 0];
   [- Sin theta; Int 0; Cos theta]].
Definition Rx : matrix :=
  [[Int 1; Int 0; Int 0]; [Int 0; Cos phi; - Sin phi]; [Int 0; Sin phi; Cos phi]].

(** The transformation from angular velocity to angular rates: [N] is
    the matrix that the notebook inverts, [M] its inverse. *)
Definition ex : matrix := [[Int 1]; [Int 0]; [Int 0]].
Definition ey : matrix := [[Int 0]; [Int 1]; [Int 0]].
Definition ez : matrix := [[Int 0]; [Int 0]; [Int 1]].
Definition N : matrix :=
  hstack (hstack (mmul (transpose (mmul Ry Rx)) ez) (mmul (transpose Rx) ey)) ex.
Definition M : matrix := inv N.

(** Euler's equations *)
Definition euler : matrix :=
  [[(Int 1 / Jx) * (entry T 0 0 + (Jy - Jz) * w_y * w_z)];
   [(Int 1 / Jy) * (entry T 1 0 + (Jz - Jx) * w_z * w_x)];
   [(Int 1 / Jz) * (entry T 2 0 + (Jx - Jy) * w_x * w_y)]].

(** The equations of motion before [sym.simplify] ... *)
Definition f_derived : matrix :=
  vstack (mmul M [[Var w_x]; [Var w_y]; [Var w_z]]) euler.

(** ... and the simplified matrix that [f] is bound to, as the cell
    displays it. *)
Definition f : matrix :=
  [[(w_y * Sin phi + w_z * Cos phi) / Cos theta];
   [w_y * Cos phi - w_z * Sin phi];
   [w_x + w_y * Sin phi * Tan theta + w_z * Cos phi * Tan theta];
   [Int (-55) * Sqrt (Int 2) * tau_1 / Int 1484
    + Int 55 * Sqrt (Int 2) * tau_2 / Int 1484
    - Int 150 * w_y * w_z / Int 371];
   [Int (-55) * Sqrt (Int 2) * tau_3 / Int 1484
    + Int 55 * Sqrt (Int 2) * tau_4 / Int 1484
    + Int 150 * w_x * w_z / Int 371];
   [Int (-55) * Sqrt (Int 2) * (tau_1 + tau_2 + tau_3 + tau_4) / Int 2084]].

(** Scope radius *)
Definition r : Q := ((8 # 10) / (21 # 10))%Q.

(** Position of a star in the space frame, orientation of the body
    frame, position of the star in the body frame and in the image. *)
Definition p_star_in_space : matrix :=
  [[Cos alpha * Cos delta]; [Sin alpha * Cos delta]; [Sin delta]].
Definition R_body_in_space : matrix := mmul (mmul Rz Ry) Rx.
Definition p_star_in_body : matrix :=
  mmul (transpose R_body_in_space) p_star_in_space.
Definition p_star_in_image : matrix :=
  smul (Int 1 / nsimplify r)
       [[entry p_star_in_body 1 0 / entry p_star_in_body 0 0];
        [entry p_star_in_body 2 0 / entry p_star_in_body 0 0]].

(** The simplified sensor model that [g] is bound to, as displayed. *)
Definition g : matrix :=
  [[Int 21 * (Sin delta * Sin phi * Cos theta
              + Sin phi * Sin theta * Cos delta * Cos (alpha - psi)
              + Sin (alpha - psi) * Cos delta * Cos phi)
    / (Int 8 * (- Sin delta * Sin theta
                + Cos delta * Cos theta * Cos (alpha - psi)))];
   [Int 21 * (Sin delta * Cos phi * Cos theta
              - Sin phi * Sin (alpha - psi) * Cos delta
              + Sin theta * Cos delta * Cos phi * Cos (alpha - psi))
    / (Int 8 * (- Sin delta * Sin theta
                + Cos delta * Cos theta * Cos (alpha - psi)))]].

(** The denominator that the two displayed entries of [g] share, up to
    the factor 8. *)
Definition px_closed (rho : env) : R :=
  (- sin (rho delta) * sin (rho theta)
   + cos (rho delta) * cos (rho theta) * cos (rho alpha - rho psi))%R.

(** The star catalogue printed by cell 3: (alpha, delta) per star. *)
Definition stars : list (Q * Q) :=
  [(-(10 # 100), -(15 # 100)); (0, -(15 # 100)); (10 # 100, -(15 # 100));
   (0, 0);
   (-(10 # 100), 15 # 100); (0, 15 # 100); (10 # 100, 15 # 100)]%Q.

End Model.

(** ** The linearizer (cells 6 to 8) *)

Module Linearizer.
Import Sym.

(** The names of the notebook's global namespace that the linearizer
    reads or writes: the symbolic models [f] and [g]. *)
Record globals : Type := {
  gl_f : option matrix;
  gl_g : option matrix
}.

(** The namespace once cells 4 and 5 have run. *)
Definition notebook : globals :=
  {| gl_f := Some Model.f; gl_g := Some Model.g |}.

Definition lookup (x : option matrix) : Py.result matrix :=
  match x with
  | Some m => Py.ok m
  | None => Py.raise Py.NameError
  end.

Definition state_symbols : list symbol := [psi; theta; phi; w_x; w_y; w_z].
Definition input_symbols : list symbol := [tau_1; tau_2; tau_3; tau_4].

(** The operating point that the ten arguments of [get_model] name. *)
Definition op_env (psi_e theta_e phi_e w_x_e w_y_e w_z_e
                   tau_1_e tau_2_e tau_3_e tau_4_e : R) : env :=
  bind_args (state_symbols ++ input_symbols)
            [psi_e; theta_e; phi_e; w_x_e; w_y_e; w_z_e;
             tau_1_e; tau_2_e; tau_3_e; tau_4_e].

(** The symbolic Jacobians [A_sym] and [B_sym] of the notebook's [f]. *)
Definition A_sym : matrix :=
  match jacobian Model.f state_symbols with
  | inr J => J
  | inl _ => []
  end.
Definition B_sym : matrix :=
  match jacobian Model.f input_symbols with
  | inr J => J
  | inl _ => []
  end.

(** [get_model]: every name it assigns is local, so the namespace it is
    given is the namespace it leaves. *)
Definition get_model (G : globals)
    (psi_e theta_e phi_e w_x_e w_y_e w_z_e
     tau_1_e tau_2_e tau_3_e tau_4_e : R)
  : Py.result (ndarray * ndarray) * globals :=
  (f <- lookup (gl_f G) ;;
   (* Find A and B in symbolic form *)
   A_sym <- jacobian f state_symbols ;;
   B_sym <- jacobian f input_symbols ;;
   (* Create lambda functions to allow numerical evaluation of A and B *)
   let A_num := lambdify (state_symbols ++ input_symbols) A_sym in
   let B_num := lambdify (state_symbols ++ input_symbols) B_sym in
   (* Find A and B in numeric form *)
   A <- A_num [psi_e; theta_e; phi_e; w_x_e; w_y_e; w_z_e;
               tau_1_e; tau_2_e; tau_3_e; tau_4_e] ;;
   B <- B_num [psi_e; theta_e; phi_e; w_x_e; w_y_e; w_z_e;
               tau_1_e; tau_2_e; tau_3_e; tau_4_e] ;;
   (* Return A and B *)
   Py.ok (A, B),
   G).

(** The statements of the cell "linearizing sensor", with the dangling
    line [.astype(float)] joined to the statement before it: the global
    [g] is rebound to the empty matrix, then [C] and [D] are computed
    from it with lambdas of six parameters that are called with ten
    arguments. *)
Definition sensor_statements (G : globals)
    (psi_e theta_e phi_e w_x_e w_y_e w_z_e
     tau_1_e tau_2_e tau_3_e tau_4_e : R)
  : Py.result (ndarray * ndarray) * globals :=
  let g : matrix := [] in
  (JC <- jacobian g state_symbols ;;
   let C_num := lambdify state_symbols JC in
   C <- C_num [psi_e; theta_e; phi_e; w_x_e; w_y_e; w_z_e;
               tau_1_e; tau_2_e; tau_3_e; tau_4_e] ;;
   JD <- jacobian g input_symbols ;;
   let D_num := lambdify state_symbols JD in
   D <- D_num [psi_e; theta_e; phi_e; w_x_e; w_y_e; w_z_e;
               tau_1_e; tau_2_e; tau_3_e; tau_4_e] ;;
   Py.ok (C, D),
   {| gl_f := gl_f G; gl_g := Some g |}).

(** The cell as it is written: the line [.astype(float)] is indented
    under a complete statement, which Python rejects with
    [IndentationError], a [SyntaxError], when it compiles the cell; no
    statement of the cell runs. *)
Definition sensor_cell (G : globals)
    (psi_e theta_e phi_e w_x_e w_y_e w_z_e
     tau_1_e tau_2_e tau_3_e tau_4_e : R)
  : Py.result (ndarray * ndarray) * globals :=
  (Py.raise Py.SyntaxError, G).

(** The whole linearizer: [A, B] from [get_model], then [C, D] from the
    sensor cell [sensor]. *)
Definition linearize_with
    (sensor : globals -> R -> R -> R -> R -> R -> R -> R -> R -> R -> R ->
              Py.result (ndarray * ndarray) * globals)
    (G : globals)
    (psi_e theta_e phi_e w_x_e w_y_e w_z_e
     tau_1_e tau_2_e tau_3_e tau_4_e : R)
  : Py.result (ndarray * ndarray * ndarray * ndarray) * globals :=
  let (rAB, G1) := get_model G psi_e theta_e phi_e w_x_e w_y_e w_z_e
                             tau_1_e tau_2_e tau_3_e tau_4_e in
  match rAB with
  | inl e => (inl e, G1)
  | inr (A, B) =>
      let (rCD, G2) := sensor G1 psi_e theta_e phi_e w_x_e w_y_e w_z_e
                              tau_1_e tau_2_e tau_3_e tau_4_e in
      match rCD with
      | inl e => (inl e, G2)
      | inr (C, D) => (inr (A, B, C, D), G2)
      end
  end.

Definition linearize := linearize_with sensor_cell.

End Linearizer.

(** ** numpy arrays of finite floats *)

Module Np.

(** A two-dimensional array as the list of its rows (an array without
    rows is taken to have no columns). *)
Definition array : Type := list (list R).

Definition nrows (X : array) : nat := length X.

Definition ncols (X : array) : nat :=
  match X with
  | [] => 0
  | r :: _ => length r
  end.

(** All rows have [c] entries and there are [r] of them. *)
Definition has_shape (r c : nat) (X : array) : Prop :=
  length X = r /\ Forall (fun row => length row = c) X.

Fixpoint dot (u v : list R) : R :=
  match u, v with
  | a :: u', b :: v' => a * b + dot u' v'
  | _, _ => 0
  end.

(** [X @ v] for a vector [v] *)
Definition mulvec (X : array) (v : list R) : list R :=
  map (fun row => dot row v) X.

Definition column (X : array) (j : nat) : list R :=
  map (fun row => nth j row 0) X.

(** [X.T] *)
Definition transpose (X : array) : array :=
  map (column X) (seq 0 (ncols X)).

Definition mm (X Y : array) : array :=
  map (fun row => map (fun j => dot row (column Y j)) (seq 0 (ncols Y))) X.

(** [X @ Y]: the inner dimensions have to agree. *)
Definition matmul (X Y : array) : Py.result array :=
  if (ncols X =? nrows Y)%nat then Py.ok (mm X Y)
  else Py.raise Py.ValueError.

Definition zip_rows (op : R -> R -> R) (X Y : array) : array :=
  map (fun p => map (fun q => op (fst q) (snd q)) (combine (fst p) (snd p)))
      (combine X Y).

(** [X - Y] for arrays of one shape (the broadcasting of arrays of
    different shapes is left out: the operation is reported as failed). *)
Definition sub (X Y : array) : Py.result array :=
  if ((nrows X =? nrows Y) && (ncols X =? ncols Y))%nat
  then Py.ok (zip_rows Rminus X Y)
  else Py.raise Py.ValueError.

(** [- X] *)
Definition neg (X : array) : array := map (map Ropp) X.

(** [np.zeros((r, c))] *)
Definition zeros (r c : nat) : array := repeat (repeat 0 c) r.

(** [np.block]: the arrays of an inner list are put side by side and
    need one number of rows, the resulting strips are put on top of
    each other and need one number of columns. *)
Fixpoint hstack (bs : list array) : Py.result array :=
  match bs with
  | [] => Py.raise Py.ValueError
  | [b] => Py.ok b
  | b :: rest =>
      s <- hstack rest ;;
      if (nrows b =? nrows s)%nat
      then Py.ok (map (fun p => fst p ++ snd p) (combine b s))
      else Py.raise Py.ValueError
  end.

Fixpoint vstack (ss : list array) : Py.result array :=
  match ss with
  | [] => Py.raise Py.ValueError
  | [s] => Py.ok s
  | s :: rest =>
      t <- vstack rest ;;
      if (ncols s =? ncols t)%nat then Py.ok (s ++ t)
      else Py.raise Py.ValueError
  end.

Fixpoint strips (bss : list (list array)) : Py.result (list array) :=
  match bss with
  | [] => Py.ok []
  | bs :: rest =>
      s <- hstack bs ;;
      ss <- strips rest ;;
      Py.ok (s :: ss)
  end.

Definition block (bss : list (list array)) : Py.result array :=
  ss <- strips bss ;; vstack ss.

(** *** Notions the design is judged by *)

Definition nonzero (v : list R) : Prop := Exists (fun x => x <> 0) v.

(** [lam] is a real eigenvalue of [X]: some nonzero [v] has
    [X v = lam v]. *)
Definition eigenvalue (X : array) (lam : R) : Prop :=
  exists v : list R,
    length v = ncols X /\ nonzero v /\ mulvec X v = map (Rmult lam) v.

(** Full column rank: no nonzero vector is sent to zero. *)
Definition full_column_rank (X : array) : Prop :=
  forall v : list R,
    length v = ncols X -> Forall (fun x => x = 0) (mulvec X v) ->
    Forall (fun x => x = 0) v.

(** The blocks [Y, Y X, Y X X, ...] ([n] of them). *)
Fixpoint right_powers (n : nat) (X Y : array) : list array :=
  match n with
  | O => []
  | S k => Y :: right_powers k X (mm Y X)
  end.

(** The blocks [Y, X Y, X X Y, ...] ([n] of them). *)
Fixpoint left_powers (n : nat) (X Y : array) : list array :=
  match n with
  | O => []
  | S k => Y :: left_powers k X (mm X Y)
  end.

End Np.

(** ** The design cells (controller, observability, observer, closed loop) *)

Module Design.
Import Np.

(** What [signal.place_poles] returns, reduced to the attribute that
    the notebook reads. *)
Record bunch : Type := { gain_matrix : array }.

(** The routines of scipy and numpy that the cells call are parameters
    of the cells, and so are the arrays [A], [B], [C], [K] and [L] that
    the cells read from the notebook's namespace. *)
Definition place_poles_type : Type :=
  array -> array -> list R -> Py.result bunch.

(** [K = signal.place_poles(A, B, [-1., -1.]).gain_matrix] *)
Definition K (place_poles : place_poles_type) (A B : array)
  : Py.result array :=
  res <- place_poles A B [-1; -1] ;;
  Py.ok (gain_matrix res).

(** [Wo = np.block([[C], [C @ A], [C@A@A]])] *)
Definition Wo (A C : array) : Py.result array :=
  CA <- matmul C A ;;
  CA' <- matmul C A ;;
  CAA <- matmul CA' A ;;
  block [[C]; [CA]; [CAA]].


(** [L = signal.place_poles(A.T, C.T, [-1., -1.]).gain_matrix.T] *)
Definition L (place_poles : place_poles_type) (A C : array)
  : Py.result array :=
  res <- place_poles (transpose A) (transpose C) [-1; -1] ;;
  Py.ok (transpose (gain_matrix res)).

(** [F = np.block([[A - B @ K, - B @ K], [np.zeros((2, 2)), A - L @ C]])] *)
Definition F (A B C K L : array) : Py.result array :=
  BK <- matmul B K ;;
  P <- sub A BK ;;
  Q <- matmul (neg B) K ;;
  LC <- matmul L C ;;
  S <- sub A LC ;;
  block [[P; Q]; [zeros 2 2; S]].

(** [print(linalg.eigvals(F))]: the eigenvalues (real and imaginary
    parts) that the cell prints. *)
Definition eig_cell (eigvals : array -> list (R * R)) (F : array)
  : Py.result (list (R * R)) :=
  Py.ok (eigvals F).

(** The observability matrix as the specification words it: the [n]
    blocks [C A^i], [i = 0 .. n-1], on top of each other. *)
Definition spec_observability_matrix (n : nat) (A C : array) : array :=
  concat (right_powers n A C).

(** The controllability condition as the specification words it: the
    [n] blocks [A^i B] side by side have full row rank, that is, a row
    vector that annihilates every block is zero. *)
Definition spec_controllable (n : nat) (A B : array) : Prop :=
  forall v : list R,
    length v = n ->
    (forall X, In X (left_powers n A B) ->
               Forall (fun x => x = 0) (mulvec (transpose X) v)) ->
    Forall (fun x => x = 0) v.

End Design.

(** ** The controller class *)

Module Controller.
Import String.
Local Open Scope string_scope.

(** An instance has no attributes of its own ([__init__] is [pass]). *)
Inductive t : Type := instance.

(** Arguments and results of the method calls. *)
Inductive arg : Type :=
| Float (x : R)
| Array (xs : list R).

Inductive ret : Type :=
| PyNone
| Tuple4 (front_torque back_torque left_torque right_torque : R).

Definition reset (self : t) : ret * t := (PyNone, self).

Definition run (self : t) (t0 : arg) (star_meas : arg) : ret * t :=
  let front_torque := 0 in
  let back_torque := 0 in
  let left_torque := 0 in
  let right_torque := 0 in
  (Tuple4 front_torque back_torque left_torque right_torque, self).

(** The attributes that are methods of the class. *)
Definition methods : list string := ["__init__"; "reset"; "run"].

(** A call [self.name(args)]: a name that the class does not define
    raises [AttributeError], a call with the wrong number of arguments
    raises [TypeError]. *)
Definition call (self : t) (name : string) (args : list arg)
  : Py.result (ret * t) :=
  if name =? "__init__" then
    match args with
    | [] => Py.ok (PyNone, self)
    | _ => Py.raise Py.TypeError
    end
  else if name =? "reset" then
    match args with
    | [] => Py.ok (reset self)
    | _ => Py.raise Py.TypeError
    end
  else if name =? "run" then
    match args with
    | [t0; star_meas] => Py.ok (run self t0 star_meas)
    | _ => Py.raise Py.TypeError
    end
  else Py.raise Py.AttributeError.

(** The columns of the logged measurements that the plotting cell reads
    for star [i]: [2 * i] for [y] and [2 * i + 1] for [z]. *)
Definition star_columns (i : nat) : nat * nat := (2 * i, 2 * i + 1)%nat.

(** [y_i] and [z_i] of a measurement vector. *)
Definition star_y (star_meas : list R) (i : nat) : R :=
  nth (fst (star_columns i)) star_meas 0.
Definition star_z (star_meas : list R) (i : nat) : R :=
  nth (snd (star_columns i)) star_meas 0.

(** The columns read over the whole catalogue, in the order of the
    loop [for i in range(len(simulator.stars))]. *)
Definition columns_read (nstars : nat) : list nat :=
  flat_map (fun i => [fst (star_columns i); snd (star_columns i)])
           (seq 0 nstars).

End Controller.

(** ** Concrete designs used as examples *)

Module Examples.
Import Np.

(** A two-state design whose closed loop is the identity matrix. *)
Definition A2 : array := [[1; 0]; [0; 1]].
Definition B2 : array := [[0]; [0]].
Definition C2 : array := [[0; 0]].
Definition K2 : array := [[0; 0]].
Definition L2 : array := [[0]; [0]].
Definition F2 : array :=
  [[1; 0; 0; 0]; [0; 1; 0; 0]; [0; 0; 1; 0]; [0; 0; 0; 1]].

(** A chain of six integrators observed at its first state. *)
Definition A6 : array :=
  [[0; 1; 0; 0; 0; 0]; [0; 0; 1; 0; 0; 0]; [0; 0; 0; 1; 0; 0];
   [0; 0; 0; 0; 1; 0]; [0; 0; 0; 0; 0; 1]; [0; 0; 0; 0; 0; 0]].
Definition C6 : array := [[1; 0; 0; 0; 0; 0]].
Definition W3 : array :=
  [[1; 0; 0; 0; 0; 0]; [0; 1; 0; 0; 0; 0]; [0; 0; 1; 0; 0; 0]].
Definition I6 : array :=
  [[1; 0; 0; 0; 0; 0]; [0; 1; 0; 0; 0; 0]; [0; 0; 1; 0; 0; 0];
   [0; 0; 0; 1; 0; 0]; [0; 0; 0; 0; 1; 0]; [0; 0; 0; 0; 0; 1]].

(** Six states without dynamics, each driven by an input of its own. *)
Definition Z6 : array := zeros 6 6.

(** The same six states with no actuator (the pair [(A6, B6_none)] is
    not controllable) and with a sensor that sees nothing (the pair
    [(A6, C6_blind)] is not observable). *)
Definition B6_none : array := zeros 6 4.
Definition C6_blind : array := zeros 2 6.

(** A pole-placement routine that refuses every request, and one that
    answers every request with a gain of zeros. *)
Definition refusing_place_poles : Design.place_poles_type :=
  fun _ _ _ => Py.raise Py.ValueError.
Definition answering_place_poles : Design.place_poles_type :=
  fun A B _ => Py.ok {| Design.gain_matrix := zeros (ncols B) (nrows A) |}.

End Examples.

(** ** The linearized spacecraft at rest, in closed form *)

Module AtRest.
(** The state matrix at an operating point at rest (no angular
    velocity) with pitch [th] and roll [ph], and the input matrix, in
    closed form. *)
Definition A_rest (th ph : R) : Np.array :=
  [[0; 0; 0; 0; sin ph / cos th; cos ph / cos th];
   [0; 0; 0; 0; cos ph; - sin ph];
   [0; 0; 0; 1; sin ph * tan th; cos ph * tan th];
   [0; 0; 0; 0; 0; 0];
   [0; 0; 0; 0; 0; 0];
   [0; 0; 0; 0; 0; 0]].

Definition B_rest : Np.array :=
  let b := 55 * sqrt 2 / 1484 in
  let c := 55 * sqrt 2 / 2084 in
  [[0; 0; 0; 0]; [0; 0; 0; 0]; [0; 0; 0; 0];
   [- b; b; 0; 0]; [0; 0; - b; b]; [- c; - c; - c; - c]].
End AtRest.

(** * Properties *)

Ltac list_eq :=
  repeat match goal with
         | |- cons _ _ = cons _ _ => apply f_equal2
         | |- nil = nil => reflexivity
         end.

(** ** Expressions: evaluation and differentiation *)

Section SymFacts.
Import Sym.

Lemma symbol_eqb_spec (a b : symbol) : reflect (a = b) (symbol_eqb a b).
Proof. destruct a, b; simpl; constructor; congruence. Qed.

Lemma symbol_eqb_refl (a : symbol) : symbol_eqb a a = true.
Proof. destruct a; reflexivity. Qed.

Lemma upd_same rho s t : upd rho s (rho s) t = rho t.
Proof.
  unfold upd. destruct (symbol_eqb_spec s t); congruence.
Qed.

Lemma is_zero_eq e : is_zero e = true -> e = Int 0.
Proof.
  destruct e as [z| | | | | | | | | |]; try discriminate.
  destruct z; try discriminate. reflexivity.
Qed.

Lemma is_one_eq e : is_one e = true -> e = Int 1.
Proof.
  destruct e as [z| | | | | | | | | |]; try discriminate.
  destruct z as [|p|p]; try discriminate.
  destruct p; try discriminate. reflexivity.
Qed.

Ltac split_mk :=
  repeat match goal with
  | |- context [is_zero ?a] =>
      is_var a;
      let H := fresh "Hz" in
      destruct (is_zero a) eqn:H;
      [apply is_zero_eq in H; subst a|]; simpl
  | |- context [is_one ?a] =>
      is_var a;
      let H := fresh "Ho" in
      destruct (is_one a) eqn:H;
      [apply is_one_eq in H; subst a|]; simpl
  end.

Lemma eval_mkNeg rho a : eval rho (mkNeg a) = - eval rho a.
Proof. unfold mkNeg. split_mk; simpl; lra. Qed.

Lemma eval_mkAdd rho a b : eval rho (mkAdd a b) = eval rho a + eval rho b.
Proof. unfold mkAdd. split_mk; simpl; lra. Qed.

Lemma eval_mkSub rho a b : eval rho (mkSub a b) = eval rho a - eval rho b.
Proof. unfold mkSub. split_mk; rewrite ?eval_mkNeg; simpl; lra. Qed.

Lemma eval_mkMul rho a b : eval rho (mkMul a b) = eval rho a * eval rho b.
Proof. unfold mkMul. split_mk; simpl; lra. Qed.

Lemma eval_mkDiv rho a b : eval rho (mkDiv a b) = eval rho a / eval rho b.
Proof. unfold mkDiv. split_mk; simpl; unfold Rdiv; lra. Qed.

Lemma smooth_mkNeg rho a : smooth rho a -> smooth rho (mkNeg a).
Proof. unfold mkNeg. split_mk; simpl; tauto. Qed.

Lemma smooth_mkAdd rho a b :
  smooth rho a -> smooth rho b -> smooth rho (mkAdd a b).
Proof. unfold mkAdd. split_mk; simpl; tauto. Qed.

Lemma smooth_mkSub rho a b :
  smooth rho a -> smooth rho b -> smooth rho (mkSub a b).
Proof.
  unfold mkSub. split_mk; simpl; try tauto.
  intros _ Hb. now apply smooth_mkNeg.
Qed.

Lemma smooth_mkMul rho a b :
  smooth rho a -> smooth rho b -> smooth rho (mkMul a b).
Proof. unfold mkMul. split_mk; simpl; tauto. Qed.

Lemma smooth_mkDiv rho a b :
  smooth rho a -> smooth rho b -> eval rho b <> 0 -> smooth rho (mkDiv a b).
Proof. unfold mkDiv. split_mk; simpl; tauto. Qed.

Lemma evalf_smooth rho e : smooth rho e -> evalf rho e = Some (eval rho e).
Proof.
  induction e; simpl; intros H; try reflexivity;
    repeat match goal with
           | H : _ /\ _ |- _ => destruct H
           end;
    repeat match goal with
           | IH : smooth _ ?a -> _, H : smooth _ ?a |- _ =>
               rewrite (IH H); clear IH
           end; simpl; try reflexivity.
  - destruct (Req_dec_T (eval rho e2) 0); [contradiction|reflexivity].
  - destruct (Rlt_dec (eval rho e) 0); [lra|reflexivity].
  - destruct (Req_dec_T (cos (eval rho e)) 0); [contradiction|reflexivity].
Qed.

Lemma diff_smooth rho s e : smooth rho e -> smooth rho (diff s e).
Proof.
  induction e; simpl; intros H;
    repeat match goal with
           | H : _ /\ _ |- _ => destruct H
           end.
  - exact I.
  - destruct (symbol_eqb s s0); exact I.
  - apply smooth_mkAdd; auto.
  - apply smooth_mkSub; auto.
  - apply smooth_mkAdd; apply smooth_mkMul; auto.
  - apply smooth_mkDiv.
    + apply smooth_mkSub; apply smooth_mkMul; auto.
    + simpl; auto.
    + simpl. apply Rmult_integral_contrapositive_currified; assumption.
  - apply smooth_mkNeg; auto.
  - apply smooth_mkDiv; auto.
    + simpl; auto.
    + simpl. assert (0 < sqrt (eval rho e)) by now apply sqrt_lt_R0. lra.
  - apply smooth_mkMul; simpl; auto.
  - apply smooth_mkNeg, smooth_mkMul; simpl; auto.
  - apply smooth_mkMul; simpl; auto.
Qed.

Lemma eval_ext rho1 rho2 e :
  (forall s, occurs s e = true -> rho1 s = rho2 s) ->
  eval rho1 e = eval rho2 e.
Proof.
  induction e; simpl; intros H; try reflexivity;
    try (rewrite IHe1, IHe2; [reflexivity| |];
         intros s Hs; apply H; rewrite Hs; auto using orb_true_r);
    try (rewrite IHe; [reflexivity|]; intros s Hs; apply H; exact Hs).
  apply H. apply symbol_eqb_refl.
Qed.

Lemma evalf_ext rho1 rho2 e :
  (forall s, occurs s e = true -> rho1 s = rho2 s) ->
  evalf rho1 e = evalf rho2 e.
Proof.
  induction e; simpl; intros H; try reflexivity;
    try (rewrite IHe1, IHe2; [reflexivity| |];
         intros s Hs; apply H; rewrite Hs; auto using orb_true_r);
    try (rewrite IHe; [reflexivity|]; intros s Hs; apply H; exact Hs).
  f_equal. apply H. apply symbol_eqb_refl.
Qed.

Lemma mkMul_zero_r a : mkMul a (Int 0) = Int 0.
Proof. unfold mkMul. destruct (is_zero a); reflexivity. Qed.

Lemma diff_free s e : occurs s e = false -> diff s e = Int 0.
Proof.
  induction e; simpl; intros H;
    try (apply orb_false_iff in H; destruct H as [H1 H2];
         rewrite (IHe1 H1), (IHe2 H2));
    try rewrite (IHe H); try rewrite H; rewrite ?mkMul_zero_r;
    reflexivity.
Qed.

Lemma eval_upd_same rho s e : eval (upd rho s (rho s)) e = eval rho e.
Proof. apply eval_ext. intros t _. apply upd_same. Qed.

Lemma derivable_pt_lim_eq f x l l' :
  derivable_pt_lim f x l -> l = l' -> derivable_pt_lim f x l'.
Proof. intros H <-. exact H. Qed.

Lemma derivable_pt_lim_tan_gen x :
  cos x <> 0 -> derivable_pt_lim tan x (tan x * tan x + 1).
Proof.
  intros Hc.
  apply derivable_pt_lim_eq with
    (l := (cos x * cos x - (- sin x) * sin x) / Rsqr (cos x)).
  - change tan with (sin / cos)%F.
    apply derivable_pt_lim_div.
    + apply derivable_pt_lim_sin.
    + apply derivable_pt_lim_cos.
    + exact Hc.
  - unfold tan, Rsqr. field. exact Hc.
Qed.

(** [diff] computes the partial derivative of the denoted function. *)
Lemma diff_sound rho s e :
  smooth rho e ->
  derivable_pt_lim (fun x => eval (upd rho s x) e) (rho s)
                   (eval rho (diff s e)).
Proof.
  induction e; simpl; intros H;
    repeat match goal with
           | H : _ /\ _ |- _ => destruct H
           end;
    repeat match goal with
           | IH : smooth _ ?a -> _, H : smooth _ ?a |- _ =>
               specialize (IH H)
           end.
  - apply (derivable_pt_lim_const (IZR z)).
  - unfold upd. destruct (symbol_eqb s s0).
    + apply derivable_pt_lim_id.
    + apply (derivable_pt_lim_const (rho s0)).
  - rewrite eval_mkAdd. now apply derivable_pt_lim_plus.
  - rewrite eval_mkSub. now apply derivable_pt_lim_minus.
  - rewrite eval_mkAdd, !eval_mkMul.
    pose proof (derivable_pt_lim_mult _ _ _ _ _ IHe1 IHe2) as D.
    cbv beta in D. rewrite !eval_upd_same in D. exact D.
  - rewrite eval_mkDiv, eval_mkSub, !eval_mkMul. simpl.
    assert (Hnz : eval (upd rho s (rho s)) e2 <> 0)
      by now rewrite eval_upd_same.
    pose proof (derivable_pt_lim_div _ _ _ _ _ IHe1 IHe2 Hnz) as D.
    cbv beta in D. rewrite !eval_upd_same in D. unfold Rsqr in D.
    eapply derivable_pt_lim_eq; [exact D|]. field. assumption.
  - rewrite eval_mkNeg. now apply derivable_pt_lim_opp.
  - rewrite eval_mkDiv. simpl.
    assert (Hpos : 0 < eval (upd rho s (rho s)) e)
      by now rewrite eval_upd_same.
    pose proof (derivable_pt_lim_comp _ _ _ _ _ IHe
                  (derivable_pt_lim_sqrt _ Hpos)) as D.
    cbv beta in D. rewrite eval_upd_same in D.
    eapply derivable_pt_lim_eq; [exact D|].
    assert (0 < sqrt (eval rho e)) by now apply sqrt_lt_R0.
    field. lra.
  - rewrite eval_mkMul. simpl.
    pose proof (derivable_pt_lim_comp _ _ _ _ _ IHe
                  (derivable_pt_lim_sin _)) as D.
    cbv beta in D. rewrite eval_upd_same in D.
    eapply derivable_pt_lim_eq; [exact D|]. ring.
  - rewrite eval_mkNeg, eval_mkMul. simpl.
    pose proof (derivable_pt_lim_comp _ _ _ _ _ IHe
                  (derivable_pt_lim_cos _)) as D.
    cbv beta in D. rewrite eval_upd_same in D.
    eapply derivable_pt_lim_eq; [exact D|]. ring.
  - rewrite eval_mkMul. simpl.
    assert (Hc : cos (eval (upd rho s (rho s)) e) <> 0)
      by now rewrite eval_upd_same.
    pose proof (derivable_pt_lim_comp _ _ _ _ _ IHe
                  (derivable_pt_lim_tan_gen _ Hc)) as D.
    cbv beta in D. rewrite eval_upd_same in D.
    eapply derivable_pt_lim_eq; [exact D|]. ring.
Qed.

End SymFacts.

(** ** The dynamics model *)

Section ModelFacts.
Import Sym Model.

Lemma numeric_smooth rho m :
  Forall (Forall (smooth rho)) m ->
  numeric rho m = map (map Some) (eval_matrix rho m).
Proof.
  unfold numeric, eval_matrix. intros H.
  induction H as [|row m Hrow _ IH]; simpl; [reflexivity|].
  f_equal; [|exact IH].
  induction Hrow as [|e row He _ IHrow]; simpl; [reflexivity|].
  f_equal; [|exact IHrow]. now apply evalf_smooth.
Qed.

Lemma cos2_as_sin2 x : cos x * cos x = 1 - sin x * sin x.
Proof. pose proof (sin2_cos2 x) as H. unfold Rsqr in H. lra. Qed.

Lemma f_smooth rho :
  cos (rho theta) <> 0 -> Forall (Forall (smooth rho)) f.
Proof.
  intros Hc. unfold f.
  repeat (apply Forall_cons || apply Forall_nil); simpl;
    repeat split; try exact I; try exact Hc; lra.
Qed.

Lemma sin2_plus_cos2 x : sin x * sin x + cos x * cos x = 1.
Proof. pose proof (sin2_cos2 x) as H. unfold Rsqr in H. exact H. Qed.

(** A nonzero test whose subject is [- cos theta] up to the identity
    [sin^2 phi + cos^2 phi = 1]. *)
Ltac det_nonzero rho Hc :=
  match goal with
  | |- ?d <> 0 =>
      replace d with
        (- cos (rho theta)
         * (sin (rho phi) * sin (rho phi) + cos (rho phi) * cos (rho phi)))
        by ring;
      rewrite sin2_plus_cos2; lra
  end.

Lemma f_derived_smooth rho :
  cos (rho theta) <> 0 -> Forall (Forall (smooth rho)) f_derived.
Proof.
  intros Hc.
  unfold f_derived, vstack.
  repeat (apply Forall_cons || apply Forall_nil); simpl;
    repeat split; try exact I; try lra; det_nonzero rho Hc.
Qed.

(** The entries of [f] and of the unsimplified equations of motion
    denote the same reals. *)
Lemma f_eval_derived rho :
  cos (rho theta) <> 0 ->
  eval_matrix rho f_derived = eval_matrix rho f.
Proof.
  intros Hc.
  pose proof (cos2_as_sin2 (rho phi)) as Hphi.
  unfold eval_matrix, f_derived, vstack, f. simpl.
  list_eq;
    repeat match goal with
    | |- context [?n / ?d] =>
        lazymatch d with
        | - cos (rho theta) => fail
        | _ => replace d with (- cos (rho theta)) by (ring [Hphi])
        end
    end;
    unfold tan; field [Hphi]; lra.
Qed.

(** On the range of a pitch angle the singularity is theta = pi/2 and
    theta = -pi/2 and nothing else. *)
Lemma pitch_off_singularity (x : R) :
  - PI <= x <= PI -> x <> PI / 2 -> x <> - (PI / 2) -> cos x <> 0.
Proof.
  intros Hx H1 H2 Hc.
  apply cos_eq_0_0 in Hc. destruct Hc as [k Hk].
  pose proof PI_RGT_0 as Hpi.
  assert (Hk1 : (-2 < k)%Z).
  { apply lt_IZR. assert (IZR k * PI > -2 * PI) by lra.
    apply Rmult_lt_reg_r with PI; lra. }
  assert (Hk2 : (k < 1)%Z).
  { apply lt_IZR. assert (IZR k * PI < 1 * PI) by lra.
    apply Rmult_lt_reg_r with PI; lra. }
  assert (Hcase : k = (-1)%Z \/ k = 0%Z) by lia.
  destruct Hcase as [-> | ->].
  - apply H2. lra.
  - apply H1. lra.
Qed.

(** C4.  For every state whose pitch is not +-pi/2 (a pitch angle theta
    in [-pi, pi] other than pi/2 and -pi/2 or, beyond that range, any
    theta with cos theta <> 0) and every input, [f] returns six finite
    numbers, the same as the unsimplified equations of motion.
    The three Euler-angle rates are the body angular velocity taken
    through the inverse of the kinematic matrix [N] of the yaw-pitch-roll
    rotations: they solve [N rates = w], they are the only solution, and
    they equal [M w] for the inverse [M] that the notebook computes.  The
    three angular accelerations satisfy Euler's equations with the
    resultant wheel torque [T] and with moments of inertia that are the
    base values plus the offset [4 * mw * lw^2] on every axis. *)
Theorem dynamics_model_correct (rho : env) :
  (- PI <= rho theta <= PI /\
   rho theta <> PI / 2 /\ rho theta <> - (PI / 2))
  \/ cos (rho theta) <> 0 ->
  let J_x := Q2R Jxb + 4 * Q2R mw * (Q2R lw) ^ 2 in
  let J_y := Q2R Jyb + 4 * Q2R mw * (Q2R lw) ^ 2 in
  let J_z := Q2R Jzb + 4 * Q2R mw * (Q2R lw) ^ 2 in
  let w := [rho w_x; rho w_y; rho w_z] in
  exists dpsi dtheta dphi dwx dwy dwz : R,
    numeric rho f =
      [[Some dpsi]; [Some dtheta]; [Some dphi];
       [Some dwx]; [Some dwy]; [Some dwz]] /\
    numeric rho f_derived = numeric rho f /\
    Np.mulvec (eval_matrix rho N) [dpsi; dtheta; dphi] = w /\
    (forall x y z,
        Np.mulvec (eval_matrix rho N) [x; y; z] = w ->
        [x; y; z] = [dpsi; dtheta; dphi]) /\
    [dpsi; dtheta; dphi] = Np.mulvec (eval_matrix rho M) w /\
    J_x * dwx
      = eval rho (entry T 0 0) + (J_y - J_z) * rho w_y * rho w_z /\
    J_y * dwy
      = eval rho (entry T 1 0) + (J_z - J_x) * rho w_z * rho w_x /\
    J_z * dwz
      = eval rho (entry T 2 0) + (J_x - J_y) * rho w_x * rho w_y.
Proof.
  intros Hth J_x J_y J_z w.
  assert (Hc : cos (rho theta) <> 0).
  { destruct Hth as [(Hr & H1 & H2)|Hc]; [|exact Hc].
    now apply pitch_off_singularity. }
  clear Hth.
  pose proof (cos2_as_sin2 (rho phi)) as Hphi.
  do 6 eexists.
  split.
  { rewrite (numeric_smooth _ _ (f_smooth rho Hc)). simpl. reflexivity. }
  split.
  { rewrite (numeric_smooth _ _ (f_smooth rho Hc)),
            (numeric_smooth _ _ (f_derived_smooth rho Hc)).
    now rewrite f_eval_derived. }
  split.
  { unfold w. simpl. list_eq; unfold tan; field [Hphi]; exact Hc. }
  split.
  { intros x y z H. unfold w in H. simpl in H.
    injection H as H1 H2 H3.
    assert (Hx : x = (rho w_y * sin (rho phi) + rho w_z * cos (rho phi))
                     / cos (rho theta)).
    { apply (Rmult_eq_reg_l (cos (rho theta))); [|exact Hc].
      rewrite <- H2, <- H3. field [Hphi]. exact Hc. }
    assert (Hy : y = rho w_y * cos (rho phi) - rho w_z * sin (rho phi)).
    { rewrite <- H2, <- H3. ring [Hphi]. }
    list_eq; try assumption.
    rewrite <- H1, Hx. unfold tan. field. exact Hc. }
  split.
  { pose proof (f_eval_derived rho Hc) as E.
    unfold eval_matrix, f_derived, vstack, f in E. simpl in E.
    injection E as E1 E2 E3 _ _ _.
    unfold w. simpl.
    list_eq; [rewrite <- E1 | rewrite <- E2 | rewrite <- E3]; ring. }
  unfold J_x, J_y, J_z, Q2R. simpl.
  repeat split; field.
Qed.

(** The hypothesis of C4 holds at the zero equilibrium. *)
Lemma dynamics_model_correct_witness :
  (- PI <= zero_env theta <= PI /\
   zero_env theta <> PI / 2 /\ zero_env theta <> - (PI / 2)) /\
  exists dpsi dtheta dphi dwx dwy dwz : R,
    numeric zero_env f =
      [[Some dpsi]; [Some dtheta]; [Some dphi];
       [Some dwx]; [Some dwy]; [Some dwz]].
Proof.
  assert (H : - PI <= zero_env theta <= PI /\
              zero_env theta <> PI / 2 /\ zero_env theta <> - (PI / 2)).
  { unfold zero_env. pose proof PI_RGT_0. repeat split; lra. }
  split; [exact H|].
  destruct (dynamics_model_correct zero_env (or_introl H))
    as (a & b & c & d & e & g & Hf & _).
  exists a, b, c, d, e, g. exact Hf.
Defined.
End ModelFacts.

(** ** The sensor model *)

Section SensorFacts.
Import Sym Model.

Lemma px_eval rho :
  eval rho (entry p_star_in_body 0 0) = px_closed rho.
Proof.
  unfold px_closed. simpl. rewrite cos_minus. ring.
Qed.

Lemma r_value : Q2R r = 8 / 21.
Proof. unfold r, Q2R. simpl. field. Qed.

Lemma g_smooth rho :
  px_closed rho <> 0 -> Forall (Forall (smooth rho)) g.
Proof.
  intros Hp. unfold px_closed in Hp. unfold g.
  repeat (apply Forall_cons || apply Forall_nil); simpl;
    repeat split; try exact I; lra.
Qed.

Lemma p_star_in_image_smooth rho :
  px_closed rho <> 0 -> Forall (Forall (smooth rho)) p_star_in_image.
Proof.
  intros Hp. rewrite <- px_eval in Hp. simpl in Hp.
  unfold p_star_in_image.
  repeat (apply Forall_cons || apply Forall_nil); simpl;
    repeat split; try exact I; try lra; exact Hp.
Qed.

Lemma g_eval_derived rho :
  px_closed rho <> 0 ->
  eval_matrix rho p_star_in_image = eval_matrix rho g.
Proof.
  intros Hp.
  pose proof (px_eval rho) as Hx. simpl in Hx.
  unfold eval_matrix, p_star_in_image, g. simpl.
  rewrite Hx. fold (px_closed rho).
  unfold px_closed in *.
  rewrite !cos_minus, !sin_minus in *.
  list_eq; field; lra.
Qed.


(** C5.  For every attitude and every star whose body-frame x component
    is positive, [g] returns the image position of the star: with [s] the
    unit direction formed from (alpha, delta) and [b] that direction
    taken into the body frame by the transpose of [R = Rz Ry Rx] (the
    rotations of the dynamics model; the transpose undoes [R], since
    [R b = s]), the two entries of [g] are [b_y / b_x] and [b_z / b_x]
    times [1 / r], where [r = 0.8 / 2.1].  The unsimplified
    [p_star_in_image] evaluates to the same numbers. *)
Theorem sensor_model_correct (rho : env) :
  let s := [cos (rho alpha) * cos (rho delta);
            sin (rho alpha) * cos (rho delta);
            sin (rho delta)] in
  let R := eval_matrix rho R_body_in_space in
  let b := Np.mulvec (Np.transpose R) s in
  let b_x := nth 0 b 0 in
  let b_y := nth 1 b 0 in
  let b_z := nth 2 b 0 in
  0 < b_x ->
  numeric rho g
    = [[Some (/ Q2R r * (b_y / b_x))]; [Some (/ Q2R r * (b_z / b_x))]] /\
  numeric rho p_star_in_image = numeric rho g /\
  R = Np.mm (Np.mm (eval_matrix rho Rz) (eval_matrix rho Ry))
            (eval_matrix rho Rx) /\
  Np.dot s s = 1 /\
  Np.mulvec R b = s /\
  Q2R r = (8 / 10) / (21 / 10).
Proof.
  intros s R b b_x b_y b_z Hpos.
  pose proof (sin2_plus_cos2 (rho psi)) as Hpsi.
  pose proof (sin2_plus_cos2 (rho theta)) as Hth.
  pose proof (sin2_plus_cos2 (rho phi)) as Hphi.
  pose proof (sin2_plus_cos2 (rho alpha)) as Hal.
  pose proof (sin2_plus_cos2 (rho delta)) as Hde.
  assert (Hbx : b_x = px_closed rho).
  { unfold b_x, b, R, s, px_closed. simpl. rewrite cos_minus. ring. }
  assert (Hp : px_closed rho <> 0) by lra.
  split.
  { rewrite (numeric_smooth _ _ (g_smooth rho Hp)).
    rewrite <- (g_eval_derived rho Hp).
    unfold eval_matrix, p_star_in_image. simpl.
    pose proof (px_eval rho) as Hx. simpl in Hx. rewrite Hx.
    rewrite r_value, Hbx.
    unfold b_y, b_z, b, R, s. simpl.
    list_eq; f_equal; field; lra. }
  split.
  { rewrite (numeric_smooth _ _ (g_smooth rho Hp)),
            (numeric_smooth _ _ (p_star_in_image_smooth rho Hp)).
    now rewrite g_eval_derived. }
  split.
  { unfold R, eval_matrix. simpl. list_eq; ring. }
  split.
  { unfold s. simpl.
    transitivity
      ((sin (rho alpha) * sin (rho alpha) + cos (rho alpha) * cos (rho alpha))
       * (cos (rho delta) * cos (rho delta))
       + sin (rho delta) * sin (rho delta)); [ring|].
    rewrite Hal. lra. }
  split.
  { pose proof (cos2_as_sin2 (rho psi)) as Cpsi.
    pose proof (cos2_as_sin2 (rho theta)) as Cth.
    pose proof (cos2_as_sin2 (rho phi)) as Cphi.
    unfold b, R, s. simpl. list_eq; ring [Cpsi Cth Cphi]. }
  rewrite r_value. field.
Qed.

Lemma px_closed_shift rho rho' :
  rho' alpha - rho' psi = rho alpha - rho psi ->
  rho' theta = rho theta -> rho' delta = rho delta ->
  px_closed rho' = px_closed rho.
Proof. unfold px_closed. intros -> -> ->. reflexivity. Qed.

(** Two assignments that agree on pitch, roll and declination and on
    the difference of right ascension and yaw give one measurement. *)
Lemma g_difference_only rho rho' :
  rho' alpha - rho' psi = rho alpha - rho psi ->
  rho' theta = rho theta -> rho' phi = rho phi ->
  rho' delta = rho delta ->
  px_closed rho <> 0 ->
  numeric rho' g = numeric rho g /\
  numeric rho' p_star_in_image = numeric rho p_star_in_image.
Proof.
  intros Ha Ht Hf Hd Hp.
  assert (Hp' : px_closed rho' <> 0)
    by now rewrite (px_closed_shift rho rho').
  assert (E : eval_matrix rho' g = eval_matrix rho g).
  { unfold eval_matrix, g. simpl. rewrite Ha, Ht, Hf, Hd. reflexivity. }
  split.
  - rewrite (numeric_smooth _ _ (g_smooth rho Hp)),
            (numeric_smooth _ _ (g_smooth rho' Hp')).
    now rewrite E.
  - rewrite (numeric_smooth _ _ (p_star_in_image_smooth rho Hp)),
            (numeric_smooth _ _ (p_star_in_image_smooth rho' Hp')).
    now rewrite !g_eval_derived, E.
Qed.

(** C10.  Where the projection denominator (the body-frame x component
    of the star direction) is not zero, [g] at (psi, theta, phi, alpha,
    delta) equals [g] at (0, theta, phi, alpha - psi, delta), and so does
    the unsimplified [p_star_in_image]; hence moving yaw and right
    ascension by one amount [c] leaves the measurement unchanged. *)
Theorem sensor_yaw_right_ascension (rho : env) :
  eval rho (entry p_star_in_body 0 0) <> 0 ->
  let rho0 := upd (upd rho psi 0) alpha (rho alpha - rho psi) in
  (numeric rho g = numeric rho0 g /\
   numeric rho p_star_in_image = numeric rho0 p_star_in_image) /\
  forall c : R,
    let rho_c := upd (upd rho psi (rho psi + c)) alpha (rho alpha + c) in
    numeric rho_c g = numeric rho g /\
    numeric rho_c p_star_in_image = numeric rho p_star_in_image.
Proof.
  intros Hp rho0. rewrite px_eval in Hp.
  split.
  - destruct (g_difference_only rho rho0) as [E1 E2];
      try (unfold rho0, upd; simpl; reflexivity || lra); try assumption.
    now rewrite E1, E2.
  - intros c rho_c.
    apply g_difference_only;
      try (unfold rho_c, upd; simpl; reflexivity || lra); assumption.
Qed.
Lemma zero_env_px : eval zero_env (entry p_star_in_body 0 0) = 1.
Proof.
  rewrite px_eval. unfold px_closed, zero_env.
  rewrite Rminus_0_r, cos_0, sin_0. ring.
Qed.

(** The star on the boresight at the zero attitude is in front of the
    scope. *)
Lemma sensor_model_correct_witness :
  0 < eval zero_env (entry p_star_in_body 0 0) /\
  exists y z : R, numeric zero_env g = [[Some y]; [Some z]].
Proof.
  assert (H : 0 < nth 0 (Np.mulvec
                           (Np.transpose (eval_matrix zero_env R_body_in_space))
                           [cos (zero_env alpha) * cos (zero_env delta);
                            sin (zero_env alpha) * cos (zero_env delta);
                            sin (zero_env delta)]) 0).
  { simpl. unfold zero_env. rewrite cos_0, sin_0. lra. }
  split; [rewrite zero_env_px; lra|].
  destruct (sensor_model_correct zero_env H) as (Hg & _).
  eexists. eexists. exact Hg.
Defined.

(** Its projection denominator is 1. *)
Lemma sensor_yaw_right_ascension_witness :
  eval zero_env (entry p_star_in_body 0 0) <> 0 /\
  numeric zero_env g
  = numeric (upd (upd zero_env psi 0) alpha
                 (zero_env alpha - zero_env psi)) g.
Proof.
  assert (H : eval zero_env (entry p_star_in_body 0 0) <> 0)
    by (rewrite zero_env_px; lra).
  split; [exact H|].
  exact (proj1 (proj1 (sensor_yaw_right_ascension zero_env H))).
Defined.
End SensorFacts.

(** ** The linearizer *)

Section LinearizerFacts.
Import Sym Linearizer.

Lemma lambdify_ok params m args :
  length args = length params ->
  forallb (forallb (bound_in params)) m = true ->
  lambdify params m args = inr (numeric (bind_args params args) m).
Proof.
  intros Hl Hb. unfold lambdify.
  rewrite Hl, Nat.eqb_refl, Hb. reflexivity.
Qed.

(** The derivatives of smooth entries are smooth. *)
Lemma jacobian_smooth rho m X J :
  jacobian m X = inr J ->
  Forall (Forall (smooth rho)) m ->
  Forall (Forall (smooth rho)) J.
Proof.
  unfold jacobian. intros HJ Hm.
  assert (Hrow : forall es, Forall (smooth rho) es ->
            Forall (Forall (smooth rho))
                   (map (fun e => map (fun x => diff x e) X) es)).
  { intros es Hes. induction Hes as [|e es He _ IH]; simpl; constructor.
    - clear - He. induction X; simpl; constructor; auto.
      now apply diff_smooth.
    - exact IH. }
  destruct (nrows m =? 1)%nat.
  - injection HJ as <-. apply Hrow.
    destruct m as [|r0 m']; simpl; [constructor|].
    now inversion Hm.
  - destruct (ncols m =? 1)%nat; [|discriminate].
    injection HJ as <-. apply Hrow.
    unfold column. clear - Hm.
    induction Hm as [|r m Hr _ IH]; simpl; constructor; [|exact IH].
    destruct Hr; simpl; [exact I|assumption].
Qed.

Lemma all_finite_smooth rho m :
  Forall (Forall (smooth rho)) m -> all_finite (numeric rho m).
Proof.
  intros H. rewrite (numeric_smooth _ _ H).
  unfold all_finite, eval_matrix.
  rewrite !Forall_map. apply Forall_forall. intros row _.
  rewrite !Forall_map. apply Forall_forall. intros e _.
  now exists (eval rho e).
Qed.

Lemma A_sym_jacobian : jacobian Model.f state_symbols = inr A_sym.
Proof. vm_compute. reflexivity. Qed.

Lemma B_sym_jacobian : jacobian Model.f input_symbols = inr B_sym.
Proof. vm_compute. reflexivity. Qed.

(** On the notebook's namespace [get_model] never raises: it returns the
    two Jacobians evaluated at the operating point. *)
Lemma get_model_notebook psi_e theta_e phi_e w_x_e w_y_e w_z_e
      tau_1_e tau_2_e tau_3_e tau_4_e :
  let rho := op_env psi_e theta_e phi_e w_x_e w_y_e w_z_e
                    tau_1_e tau_2_e tau_3_e tau_4_e in
  get_model notebook psi_e theta_e phi_e w_x_e w_y_e w_z_e
            tau_1_e tau_2_e tau_3_e tau_4_e
  = (inr (numeric rho A_sym, numeric rho B_sym), notebook).
Proof.
  intros rho. unfold get_model.
  cbn [notebook gl_f lookup Py.bind Py.ok].
  rewrite A_sym_jacobian, B_sym_jacobian. cbn [Py.bind].
  rewrite !lambdify_ok by (vm_compute; reflexivity).
  reflexivity.
Qed.

(** An operating point at which [f] evaluates to the zero vector lies off
    the singularity. *)
Lemma equilibrium_off_singularity (rho : env) :
  numeric rho Model.f = map (fun _ => [Some 0]) Model.f ->
  cos (rho theta) <> 0.
Proof.
  unfold Model.f. cbn [numeric map evalf]. intros H Hc.
  injection H as H _. revert H.
  unfold lift1, lift2, fdiv.
  destruct (Req_dec_T (cos (rho theta)) 0) as [_|Hn];
    [discriminate|contradiction].
Qed.

Lemma B_sym_smooth rho : Forall (Forall (smooth rho)) B_sym.
Proof.
  let v := eval vm_compute in B_sym in change B_sym with v.
  repeat (apply Forall_cons || apply Forall_nil); simpl;
    repeat split; try exact I; lra.
Qed.

Lemma A_sym_shape (rho : env) :
  length (numeric rho A_sym) = 6%nat /\
  Forall (fun row => length row = 6%nat) (numeric rho A_sym).
Proof.
  unfold numeric. rewrite length_map, Forall_map. split.
  - vm_compute. reflexivity.
  - apply Forall_impl with (P := fun row : list expr => length row = 6%nat).
    + intros row H. now rewrite length_map.
    + vm_compute. repeat constructor.
Qed.

Lemma B_sym_shape (rho : env) :
  length (numeric rho B_sym) = 6%nat /\
  Forall (fun row => length row = 4%nat) (numeric rho B_sym).
Proof.
  unfold numeric. rewrite length_map, Forall_map. split.
  - vm_compute. reflexivity.
  - apply Forall_impl with (P := fun row : list expr => length row = 4%nat).
    + intros row H. now rewrite length_map.
    + vm_compute. repeat constructor.
Qed.

(** C6, as amended.  At every operating point [get_model] returns a
    6 x 6 array [A] and a 6 x 4 array [B] and raises no error: it has no
    guard for the kinematic singularity.  All entries of [B] are finite,
    and at every equilibrium operating point (a point where [f]
    evaluates to the zero vector) all entries of [A] are finite too. *)
Theorem linearizer_finite_at_equilibrium
    (psi_e theta_e phi_e w_x_e w_y_e w_z_e
     tau_1_e tau_2_e tau_3_e tau_4_e : R) :
  let rho := op_env psi_e theta_e phi_e w_x_e w_y_e w_z_e
                    tau_1_e tau_2_e tau_3_e tau_4_e in
  exists A B : ndarray,
    get_model notebook psi_e theta_e phi_e w_x_e w_y_e w_z_e
              tau_1_e tau_2_e tau_3_e tau_4_e
    = (inr (A, B), notebook) /\
    (length A = 6%nat /\ Forall (fun row => length row = 6%nat) A) /\
    (length B = 6%nat /\ Forall (fun row => length row = 4%nat) B) /\
    all_finite B /\
    (numeric rho Model.f = map (fun _ => [Some 0]) Model.f ->
     all_finite A).
Proof.
  intros rho.
  exists (numeric rho A_sym), (numeric rho B_sym).
  split; [apply get_model_notebook|].
  split; [apply A_sym_shape|].
  split; [apply B_sym_shape|].
  split.
  - apply all_finite_smooth, B_sym_smooth.
  - intros Heq.
    pose proof (equilibrium_off_singularity rho Heq) as Hc.
    apply all_finite_smooth.
    exact (jacobian_smooth _ _ _ _ A_sym_jacobian (f_smooth rho Hc)).
Qed.

(** The point where every argument is zero, the equilibrium that the
    notebook chooses, is an equilibrium. *)
Lemma zero_point_equilibrium :
  numeric (op_env 0 0 0 0 0 0 0 0 0 0) Model.f
  = map (fun _ => [Some 0]) Model.f.
Proof.
  assert (Hc : cos (op_env 0 0 0 0 0 0 0 0 0 0 theta) <> 0).
  { change (cos 0 <> 0). rewrite cos_0. lra. }
  rewrite (numeric_smooth _ _ (f_smooth _ Hc)).
  unfold eval_matrix, Model.f. cbn [map eval].
  cbn [op_env bind_args state_symbols input_symbols app symbol_eqb].
  rewrite ?sin_0, ?cos_0.
  list_eq; apply f_equal; unfold tan; rewrite ?sin_0, ?cos_0; field.
Qed.

(** At the equilibrium of the notebook both arrays are finite. *)
Lemma linearizer_finite_at_equilibrium_witness :
  exists A B : ndarray,
    get_model notebook 0 0 0 0 0 0 0 0 0 0 = (inr (A, B), notebook) /\
    all_finite A /\ all_finite B.
Proof.
  destruct (linearizer_finite_at_equilibrium 0 0 0 0 0 0 0 0 0 0)
    as (A & B & E & _ & _ & HB & HA).
  exists A, B.
  exact (conj E (conj (HA zero_point_equilibrium) HB)).
Defined.

Lemma PI_bounds : 31415926 / 10000000 < PI < 31415927 / 10000000.
Proof.
  destruct (PI_2_3_7_ineq 3) as [Hl Hu].
  unfold PI_2_3_7_tg, tg_alt, Ratan_seq in Hl, Hu.
  simpl in Hl, Hu.
  split; lra.
Qed.

(** C6, the claim refuted.  At the pitch 1647099 / 2^20, a float that
    lies within a millionth of pi/2, the linearizer does not fail: it
    returns a 6 x 6 array and a 6 x 4 array, all of whose entries are
    finite.  And there is no operating point at which it raises an
    error: no test of the pitch is made and no [DomainError] exists. *)
Lemma linearizer_has_no_guard :
  (let theta_0 := 1647099 / 1048576 in
   0 < PI / 2 - theta_0 < 1 / 1000000 /\
   exists A B : ndarray,
     get_model notebook 0 theta_0 0 0 0 0 0 0 0 0
     = (inr (A, B), notebook) /\
     (length A = 6%nat /\ Forall (fun row => length row = 6%nat) A) /\
     (length B = 6%nat /\ Forall (fun row => length row = 4%nat) B) /\
     all_finite A /\ all_finite B) /\
  (forall psi_e theta_e phi_e w_x_e w_y_e w_z_e
          tau_1_e tau_2_e tau_3_e tau_4_e : R,
      ~ Py.is_error
          (fst (get_model notebook psi_e theta_e phi_e w_x_e w_y_e w_z_e
                          tau_1_e tau_2_e tau_3_e tau_4_e))).
Proof.
  pose proof PI_bounds as [Hl Hu].
  split.
  - cbv zeta. split; [split; lra|].
    set (rho := op_env 0 (1647099 / 1048576) 0 0 0 0 0 0 0 0).
    assert (Hc : cos (rho theta) <> 0).
    { change (cos (1647099 / 1048576) <> 0).
      apply Rgt_not_eq, cos_gt_0; lra. }
    exists (numeric rho A_sym), (numeric rho B_sym).
    split; [apply get_model_notebook|].
    split; [apply A_sym_shape|].
    split; [apply B_sym_shape|].
    split; apply all_finite_smooth.
    + exact (jacobian_smooth _ _ _ _ A_sym_jacobian (f_smooth rho Hc)).
    + apply B_sym_smooth.
  - intros. rewrite get_model_notebook. cbn [fst]. unfold Py.is_error.
    intros H. exact H.
Qed.

Lemma eval_upd_free rho s x e :
  occurs s e = false -> eval (upd rho s x) e = eval rho e.
Proof.
  intros Hf. apply eval_ext. intros t Ht. unfold upd.
  destruct (symbol_eqb_spec s t) as [->|_]; [congruence|reflexivity].
Qed.

Lemma diff_sound_free rho s e :
  occurs s e = false ->
  derivable_pt_lim (fun x => eval (upd rho s x) e) (rho s) 0.
Proof.
  intros Hf eps Heps. exists (mkposreal 1 Rlt_0_1). intros h Hh _.
  rewrite !eval_upd_free by exact Hf.
  unfold Rminus, Rdiv. rewrite Rplus_opp_r, Rmult_0_l, Rplus_opp_r.
  rewrite Rabs_R0. exact Heps.
Qed.

(** The partial derivative of an entry, wherever the entry is smooth or
    free of the symbol. *)
Lemma partial_derivative rho s e :
  occurs s e = false \/ smooth rho e ->
  derivable_pt_lim (fun x => eval (upd rho s x) e) (rho s)
                   (eval rho (diff s e)).
Proof.
  intros [Hf|Hs].
  - rewrite (diff_free _ _ Hf). simpl. now apply diff_sound_free.
  - now apply diff_sound.
Qed.

(** C9.  At every operating point [get_model] returns one and the same
    6 x 4 matrix [B]; and at every assignment of the symbols the entries
    of that matrix are the partial derivatives of the entries of [f]
    with respect to the four torques, which enter [f] linearly. *)
Theorem input_jacobian_constant
    (psi_e theta_e phi_e w_x_e w_y_e w_z_e
     tau_1_e tau_2_e tau_3_e tau_4_e : R) :
  let b := 55 * sqrt 2 / 1484 in
  let c := 55 * sqrt 2 / 2084 in
  let B := [[0; 0; 0; 0]; [0; 0; 0; 0]; [0; 0; 0; 0];
            [- b; b; 0; 0]; [0; 0; - b; b]; [- c; - c; - c; - c]] in
  (exists A : ndarray,
      get_model notebook psi_e theta_e phi_e w_x_e w_y_e w_z_e
                tau_1_e tau_2_e tau_3_e tau_4_e
      = (inr (A, map (map Some) B), notebook)) /\
  forall rho : env,
    Forall2
      (fun e row =>
         Forall2
           (fun s d =>
              derivable_pt_lim (fun x => eval (upd rho s x) e) (rho s) d)
           input_symbols row)
      (column Model.f 0) B.
Proof.
  intros b c B. split.
  - eexists. rewrite get_model_notebook.
    rewrite (numeric_smooth _ B_sym (B_sym_smooth _)).
    do 2 f_equal. f_equal.
    let v := eval vm_compute in B_sym in change B_sym with v.
    unfold B, b, c. cbn [eval_matrix map eval].
    list_eq; apply f_equal; field.
  - intros rho.
    unfold B, b, c, input_symbols, Model.f. cbn [column map nth].
    repeat (apply Forall2_cons || apply Forall2_nil).
    all: match goal with
         | |- derivable_pt_lim (fun x => eval (upd _ ?s x) ?e) _ _ =>
             apply derivable_pt_lim_eq with (l := eval rho (diff s e));
             [ apply partial_derivative;
               first [ left; reflexivity
                     | right; simpl; repeat split; lra ]
             | cbn; try field; try reflexivity ]
         end.
Qed.

(** The part of C7 that the code has: a call of [get_model] leaves the
    namespace as it found it, so a second call with the same arguments
    returns the same result as the first; on the notebook's namespace
    that result is a pair [(A, B)]. *)
Lemma get_model_idempotent (G : globals)
    (psi_e theta_e phi_e w_x_e w_y_e w_z_e
     tau_1_e tau_2_e tau_3_e tau_4_e : R) :
  let first := get_model G psi_e theta_e phi_e w_x_e w_y_e w_z_e
                         tau_1_e tau_2_e tau_3_e tau_4_e in
  let second := get_model (snd first) psi_e theta_e phi_e w_x_e w_y_e w_z_e
                          tau_1_e tau_2_e tau_3_e tau_4_e in
  fst second = fst first /\ snd first = G /\ snd second = G /\
  exists A B : ndarray,
    fst (get_model notebook psi_e theta_e phi_e w_x_e w_y_e w_z_e
                   tau_1_e tau_2_e tau_3_e tau_4_e) = inr (A, B).
Proof.
  intros first second.
  repeat split; try reflexivity.
  rewrite get_model_notebook. eexists. eexists. reflexivity.
Qed.

(** C7, the code at the zero equilibrium.  The linearizer as a whole
    ([get_model], then the sensor cell) ends in an error where the
    matrices [(A, B, C, D)] are due: the sensor cell as written is
    rejected with [SyntaxError]; and were its dangling line joined to
    the statement before it, its statements would end in [TypeError],
    with [g] left bound to the empty matrix.  Either way no [C] and no
    [D] are returned. *)
Lemma linearize_returns_no_C_D :
  linearize notebook 0 0 0 0 0 0 0 0 0 0 = (inl Py.SyntaxError, notebook) /\
  linearize_with sensor_statements notebook 0 0 0 0 0 0 0 0 0 0
  = (inl Py.TypeError, {| gl_f := Some Model.f; gl_g := Some [] |}).
Proof.
  unfold linearize, linearize_with. rewrite get_model_notebook.
  split; reflexivity.
Qed.
End LinearizerFacts.

(** ** Arrays: products, blocks and eigenvalues *)

Section NpFacts.
Import Np.

Lemma dot_app u1 u2 v1 v2 :
  length u1 = length v1 ->
  dot (u1 ++ u2) (v1 ++ v2) = dot u1 v1 + dot u2 v2.
Proof.
  revert v1. induction u1 as [|a u1 IH]; intros [|b v1] Hl;
    simpl in *; try discriminate.
  - lra.
  - rewrite IH by congruence. lra.
Qed.

Lemma dot_zero_r u v : Forall (fun x => x = 0) v -> dot u v = 0.
Proof.
  intros Hv. revert u. induction Hv as [|b v Hb _ IH]; intros [|a u];
    simpl; try reflexivity.
  rewrite IH, Hb. lra.
Qed.

Lemma dot_zero_l n v : dot (repeat 0 n) v = 0.
Proof.
  revert v. induction n as [|n IH]; intros [|b v]; simpl;
    try reflexivity.
  rewrite IH. lra.
Qed.

Lemma nonzero_or_zero v : nonzero v \/ Forall (fun x => x = 0) v.
Proof.
  induction v as [|a v [IH|IH]].
  - right. constructor.
  - left. now apply Exists_cons_tl.
  - destruct (Req_dec a 0) as [Ha|Ha].
    + right. now constructor.
    + left. now apply Exists_cons_hd.
Qed.

Lemma nonzero_app x e :
  nonzero (x ++ e) -> Forall (fun t => t = 0) e -> nonzero x.
Proof.
  unfold nonzero. rewrite Exists_app. intros [H|H] He; [exact H|].
  exfalso. rewrite Exists_exists in H. rewrite Forall_forall in He.
  destruct H as (t & Ht & Hn). apply Hn. now apply He.
Qed.

Lemma mulvec_app X Y v : mulvec (X ++ Y) v = mulvec X v ++ mulvec Y v.
Proof. unfold mulvec. apply map_app. Qed.

(** A strip [X | Y] applied to a vector that is split at the width of
    [X]. *)
Lemma mulvec_beside X Y x e :
  length X = length Y ->
  Forall (fun row => length row = length x) X ->
  mulvec (map (fun p => fst p ++ snd p) (combine X Y)) (x ++ e)
  = map (fun p => fst p + snd p) (combine (mulvec X x) (mulvec Y e)).
Proof.
  revert Y. induction X as [|r X IH]; intros [|s Y] Hl HX;
    simpl in *; try discriminate; [reflexivity|].
  inversion HX as [|? ? Hr HX']; subst.
  rewrite dot_app by exact Hr.
  f_equal. apply IH; [congruence|exact HX'].
Qed.

Lemma mulvec_zeros r c v : mulvec (zeros r c) v = repeat 0 r.
Proof.
  unfold zeros, mulvec. induction r as [|r IH]; simpl; [reflexivity|].
  now rewrite dot_zero_l, IH.
Qed.

Lemma mulvec_zero_vec X v :
  Forall (fun x => x = 0) v -> mulvec X v = repeat 0 (length X).
Proof.
  intros Hv. unfold mulvec. induction X as [|r X IH]; simpl;
    [reflexivity|].
  now rewrite dot_zero_r, IH.
Qed.

Lemma length_mulvec X v : length (mulvec X v) = length X.
Proof. unfold mulvec. apply length_map. Qed.

Lemma map_scale_app lam x e :
  map (Rmult lam) (x ++ e) = map (Rmult lam) x ++ map (Rmult lam) e.
Proof. apply map_app. Qed.

Lemma add_zero_r u n :
  length u = n ->
  map (fun p => fst p + snd p) (combine u (repeat 0 n)) = u.
Proof.
  revert n. induction u as [|a u IH]; intros [|n] Hl; simpl in *;
    try discriminate; [reflexivity|].
  rewrite IH by congruence. f_equal. lra.
Qed.

Lemma add_zero_l u n :
  length u = n ->
  map (fun p => fst p + snd p) (combine (repeat 0 n) u) = u.
Proof.
  revert n. induction u as [|a u IH]; intros [|n] Hl; simpl in *;
    try discriminate; [reflexivity|].
  rewrite IH by congruence. f_equal. lra.
Qed.

Lemma app_eq_length {T : Type} (a b c d : list T) :
  length a = length c -> a ++ b = c ++ d -> a = c /\ b = d.
Proof.
  revert c. induction a as [|t a IH]; intros [|u c] Hl H;
    simpl in *; try discriminate.
  - now split.
  - injection H as -> H. destruct (IH c) as [-> ->]; auto.
Qed.

(** Separation: a real eigenvalue of [[P, Q], [0, S]] is an eigenvalue
    of [P] or of [S]. *)
Lemma block_triangular_eigenvalue n k P Q S lam :
  (0 < n)%nat ->
  has_shape n n P -> has_shape n k Q -> has_shape k k S ->
  eigenvalue (map (fun p => fst p ++ snd p) (combine P Q)
              ++ map (fun p => fst p ++ snd p) (combine (zeros k n) S)) lam ->
  eigenvalue P lam \/ eigenvalue S lam.
Proof.
  intros Hn [HPl HPr] [HQl HQr] [HSl HSr] (v & Hlen & Hnz & Hv).
  destruct P as [|p0 P']; [simpl in HPl; lia|].
  destruct Q as [|q0 Q']; [simpl in HQl; lia|].
  assert (Hp0 : length p0 = n) by now inversion HPr.
  assert (Hq0 : length q0 = k) by now inversion HQr.
  assert (Hlv : length v = (n + k)%nat).
  { rewrite Hlen. simpl. rewrite length_app. congruence. }
  set (x := firstn n v). set (e := skipn n v).
  assert (Hx : length x = n) by (unfold x; rewrite length_firstn; lia).
  assert (He : length e = k) by (unfold e; rewrite length_skipn; lia).
  assert (Hsplit : v = x ++ e) by (symmetry; apply firstn_skipn).
  rewrite Hsplit in Hv, Hnz.
  rewrite mulvec_app, map_scale_app in Hv.
  rewrite !mulvec_beside in Hv.
  2:{ unfold zeros. rewrite repeat_length. congruence. }
  2:{ unfold zeros. apply Forall_forall. intros row Hrow.
      apply repeat_spec in Hrow. subst row. rewrite repeat_length.
      congruence. }
  2:{ congruence. }
  2:{ revert HPr. apply Forall_impl. intros; congruence. }
  apply app_eq_length in Hv.
  2:{ rewrite !length_map, length_combine, !length_mulvec.
      rewrite HPl, HQl, Hx. apply Nat.min_id. }
  destruct Hv as [Hv1 Hv2].
  rewrite mulvec_zeros, add_zero_l in Hv2
    by (rewrite length_mulvec; exact HSl).
  destruct (nonzero_or_zero e) as [Hne|Hze].
  - right. exists e. split; [|split; assumption].
    destruct S as [|s0 S'].
    + simpl in HSl. subst k. destruct e; [inversion Hne|discriminate].
    + simpl. inversion HSr; congruence.
  - left. exists x. split; [simpl; congruence|]. split.
    + now apply nonzero_app with e.
    + rewrite (mulvec_zero_vec _ e Hze), HQl, add_zero_r in Hv1
        by (rewrite length_mulvec; exact HPl).
      exact Hv1.
Qed.

Lemma has_shape_ncols r c X :
  has_shape r c X -> (0 < r)%nat -> ncols X = c.
Proof.
  intros [Hl Hr] Hpos. destruct X as [|row X]; simpl in *; [lia|].
  now inversion Hr.
Qed.

Lemma has_shape_mm r c X Y :
  has_shape r c X -> has_shape r (ncols Y) (mm X Y).
Proof.
  intros [Hl _]. unfold mm. split.
  - now rewrite length_map.
  - apply Forall_forall. intros row Hrow.
    apply in_map_iff in Hrow. destruct Hrow as (x & <- & _).
    now rewrite length_map, length_seq.
Qed.

Lemma has_shape_neg r c X : has_shape r c X -> has_shape r c (neg X).
Proof.
  intros [Hl Hr]. unfold neg. split.
  - now rewrite length_map.
  - rewrite Forall_map. revert Hr. apply Forall_impl.
    intros row Hrow. now rewrite length_map.
Qed.

Lemma has_shape_zip_rows op r c X Y :
  has_shape r c X -> has_shape r c Y -> has_shape r c (zip_rows op X Y).
Proof.
  intros [HXl HXr] [HYl HYr]. unfold zip_rows. split.
  - rewrite length_map, length_combine. lia.
  - apply Forall_forall. intros row Hrow.
    apply in_map_iff in Hrow. destruct Hrow as ([a b] & <- & Hin).
    rewrite length_map, length_combine. simpl.
    rewrite Forall_forall in HXr, HYr.
    rewrite (HXr a), (HYr b); [lia| |].
    + now apply in_combine_r in Hin.
    + now apply in_combine_l in Hin.
Qed.

Lemma sub_inr X Y Z :
  sub X Y = inr Z ->
  nrows X = nrows Y /\ ncols X = ncols Y /\ Z = zip_rows Rminus X Y.
Proof.
  unfold sub. destruct (nrows X =? nrows Y)%nat eqn:E1;
    destruct (ncols X =? ncols Y)%nat eqn:E2; simpl; try discriminate.
  intros H. injection H as <-.
  apply Nat.eqb_eq in E1, E2. auto.
Qed.

Lemma matmul_inr X Y Z :
  matmul X Y = inr Z -> ncols X = nrows Y /\ Z = mm X Y.
Proof.
  unfold matmul. destruct (ncols X =? nrows Y)%nat eqn:E; try discriminate.
  intros H. injection H as <-. apply Nat.eqb_eq in E. auto.
Qed.
Lemma dot_map_linear (a : R) (f g : nat -> R) (js : list nat) v :
  dot (map (fun j => a * f j + g j) js) v
  = a * dot (map f js) v + dot (map g js) v.
Proof.
  revert v. induction js as [|j js IH]; intros [|b v]; simpl; try lra.
  rewrite IH. lra.
Qed.

Lemma map_nth_seq (y : list R) :
  map (fun j => nth j y 0) (seq 0 (length y)) = y.
Proof.
  induction y as [|a y IH]; simpl; [reflexivity|].
  f_equal. rewrite <- seq_shift, map_map. exact IH.
Qed.

Lemma dot_const_zero (js : list nat) v : dot (map (fun _ => 0) js) v = 0.
Proof.
  revert v. induction js as [|j js IH]; intros [|b v]; simpl; try lra.
  rewrite IH. lra.
Qed.

Lemma dot_nil_r u : dot u [] = 0.
Proof. destruct u; reflexivity. Qed.

(** One row of [X @ Y] applied to [v] is the row of [X] applied to
    [Y v]. *)
Lemma dot_row_mm (x : list R) (Y : array) (c : nat) v :
  Forall (fun row => length row = c) Y ->
  dot (map (fun j => dot x (column Y j)) (seq 0 c)) v
  = dot x (mulvec Y v).
Proof.
  intros HY. revert x. induction HY as [|y Y Hy _ IH]; intros x.
  - simpl. rewrite dot_nil_r.
    replace (map (fun j => dot x (column [] j)) (seq 0 c))
      with (map (fun _ : nat => 0) (seq 0 c)).
    + apply dot_const_zero.
    + apply map_ext. intros j. symmetry. apply dot_nil_r.
  - destruct x as [|a x].
    + simpl. apply dot_const_zero.
    + simpl.
      rewrite (dot_map_linear a (fun j => nth j y 0)
                              (fun j => dot x (column Y j))).
      rewrite IH. subst c. now rewrite map_nth_seq.
Qed.

Lemma mulvec_mm (X Y : array) v :
  Forall (fun row => length row = ncols Y) Y ->
  mulvec (mm X Y) v = mulvec X (mulvec Y v).
Proof.
  intros HY. unfold mulvec at 1 2, mm. rewrite map_map.
  apply map_ext. intros x. now apply dot_row_mm.
Qed.
End NpFacts.

(** ** The design cells *)

Section DesignFacts.
Import Np Examples.

Ltac bind_inv H :=
  match type of H with
  | Py.bind ?c _ = inr _ =>
      let E := fresh "E" in
      destruct c eqn:E; [discriminate H|]; cbn [Py.bind] in H
  end.

(** C2, as amended.  Whenever the cell forms [F] from arrays of the
    shapes of a design with [n] states, [F] is the block matrix
    [[A - B K, - B K], [0, A - L C]] (with the 2 x 2 block of zeros of
    the cell, which fits two states only), every real eigenvalue of [F]
    is an eigenvalue of [A - B K] or of [A - L C], and the next cell
    prints the eigenvalues of [F] whatever they are: it is a display, no
    design is rejected by it. *)
Theorem closed_loop_matrix (n m p : nat) (A B C K L Fm : array) :
  has_shape n n A -> has_shape n m B -> has_shape m n K ->
  has_shape n p L -> has_shape p n C ->
  Design.F A B C K L = inr Fm ->
  n = 2%nat /\
  exists P Q S : array,
    sub A (mm B K) = inr P /\
    Q = mm (neg B) K /\
    sub A (mm L C) = inr S /\
    Fm = map (fun r => fst r ++ snd r) (combine P Q)
         ++ map (fun r => fst r ++ snd r) (combine (zeros 2 2) S) /\
    (forall lam : R,
        eigenvalue Fm lam -> eigenvalue P lam \/ eigenvalue S lam) /\
    (forall eigvals : array -> list (R * R),
        Design.eig_cell eigvals Fm = inr (eigvals Fm)).
Proof.
  intros HA HB HK HL HC HF.
  unfold Design.F in HF.
  bind_inv HF. bind_inv HF. bind_inv HF. bind_inv HF. bind_inv HF.
  rename a into BK, a0 into P, a1 into Q, a2 into LC, a3 into S.
  apply matmul_inr in E as [_ ->].
  apply matmul_inr in E1 as [_ ->].
  apply matmul_inr in E2 as [_ ->].
  pose proof E0 as HP. pose proof E3 as HS.
  apply sub_inr in E0 as (HP1 & HP2 & EP).
  apply sub_inr in E3 as (HS1 & HS2 & ES).
  unfold block in HF. cbn [strips hstack Py.bind Py.ok] in HF.
  destruct (nrows P =? nrows (mm (neg B) K))%nat eqn:N1;
    [|discriminate HF].
  cbn [Py.bind] in HF.
  destruct (nrows (zeros 2 2) =? nrows S)%nat eqn:N2; [|discriminate HF].
  cbn [Py.bind vstack Py.ok] in HF.
  match type of HF with
  | (if ?b then _ else _) = _ => destruct b; [|discriminate HF]
  end.
  injection HF as <-.
  apply Nat.eqb_eq in N2. simpl in N2.
  (* the state dimension is forced to 2 *)
  assert (Hn : n = 2%nat).
  { destruct HA as [HAl _]. destruct HL as [HLl _].
    rewrite ES in N2. unfold nrows, zip_rows, mm in N2.
    rewrite length_map, length_combine, length_map in N2. lia. }
  subst n.
  assert (HcK : ncols K = 2%nat).
  { rewrite (has_shape_ncols _ _ _ HA) in HP2 by lia.
    rewrite (has_shape_ncols _ _ _ (has_shape_mm _ _ _ K HB)) in HP2 by lia.
    congruence. }
  assert (HcC : ncols C = 2%nat).
  { rewrite (has_shape_ncols _ _ _ HA) in HS2 by lia.
    rewrite (has_shape_ncols _ _ _ (has_shape_mm _ _ _ C HL)) in HS2 by lia.
    congruence. }
  assert (HBK : has_shape 2 2 (mm B K))
    by (rewrite <- HcK at 2; now apply has_shape_mm with m).
  assert (HLC : has_shape 2 2 (mm L C))
    by (rewrite <- HcC at 2; now apply has_shape_mm with p).
  assert (HQ : has_shape 2 2 (mm (neg B) K)).
  { rewrite <- HcK at 2. apply has_shape_mm with m.
    now apply has_shape_neg. }
  assert (HPs : has_shape 2 2 P)
    by (rewrite EP; now apply has_shape_zip_rows).
  assert (HSs : has_shape 2 2 S)
    by (rewrite ES; now apply has_shape_zip_rows).
  split; [reflexivity|].
  exists P, (mm (neg B) K), S.
  repeat split; try assumption; try reflexivity.
  intros lam.
  apply (block_triangular_eigenvalue 2 2 P (mm (neg B) K) S lam);
    try assumption. lia.
Qed.


Ltac np_compute :=
  cbv [Design.F Design.Wo Design.spec_observability_matrix
       right_powers left_powers concat
       block strips hstack vstack zip_rows zeros matmul mm sub neg
       nrows ncols column dot mulvec transpose
       Py.bind Py.ok Py.raise
       map combine seq length repeat Nat.eqb andb fst snd app nth
       A2 B2 C2 K2 L2 F2 A6 C6 W3 I6 Z6 B6_none C6_blind].

Lemma F2_cell : Design.F A2 B2 C2 K2 L2 = inr F2.
Proof. np_compute. apply f_equal. list_eq; ring. Qed.

Lemma F2_unstable : eigenvalue F2 1.
Proof.
  exists [1; 0; 0; 0]. split; [reflexivity|]. split.
  - apply Exists_cons_hd. lra.
  - np_compute. list_eq; ring.
Qed.




Lemma all_zero_6 (a b c d e f : R) :
  Forall (fun x => x = 0) [a; b; c; d; e; f] ->
  a = 0 /\ b = 0 /\ c = 0 /\ d = 0 /\ e = 0 /\ f = 0.
Proof.
  intros H.
  repeat match goal with
         | H : Forall _ (_ :: _) |- _ => inversion H; clear H; subst
         end.
  repeat split; assumption.
Qed.



(** With six states the block of zeros of two rows does not fit beside
    [A - L C]: the cell ends in [ValueError]. *)
Lemma F_cell_six_states :
  Design.F A6 B6_none C6_blind (zeros 4 6) (zeros 6 2) = inl Py.ValueError.
Proof. np_compute. reflexivity. Qed.

(** C2, the claim refuted: the design [A2 .. L2] has the closed loop
    [F2] with the eigenvalue 1, and both cells complete normally; the
    design is not rejected. *)
Lemma unstable_design_not_rejected :
  Design.F A2 B2 C2 K2 L2 = inr F2 /\
  eigenvalue F2 1 /\ 0 <= 1 /\
  forall eigvals : array -> list (R * R),
    Design.eig_cell eigvals F2 = inr (eigvals F2).
Proof.
  split; [exact F2_cell|]. split; [exact F2_unstable|].
  split; [lra|]. intros eigvals. reflexivity.
Qed.

Lemma A2_shape : has_shape 2 2 A2.
Proof. split; [reflexivity|]. repeat constructor. Qed.
Lemma B2_shape : has_shape 2 1 B2.
Proof. split; [reflexivity|]. repeat constructor. Qed.
Lemma K2_shape : has_shape 1 2 K2.
Proof. split; [reflexivity|]. repeat constructor. Qed.
Lemma L2_shape : has_shape 2 1 L2.
Proof. split; [reflexivity|]. repeat constructor. Qed.
Lemma C2_shape : has_shape 1 2 C2.
Proof. split; [reflexivity|]. repeat constructor. Qed.

(** The two-state design [A2 .. L2] has the shapes of a design and its
    closed loop is formed. *)
Lemma closed_loop_matrix_witness :
  exists P Q S : array,
    sub A2 (mm B2 K2) = inr P /\
    Q = mm (neg B2) K2 /\
    sub A2 (mm L2 C2) = inr S /\
    F2 = map (fun r => fst r ++ snd r) (combine P Q)
         ++ map (fun r => fst r ++ snd r) (combine (zeros 2 2) S) /\
    (forall lam : R,
        eigenvalue F2 lam -> eigenvalue P lam \/ eigenvalue S lam) /\
    (forall eigvals : array -> list (R * R),
        Design.eig_cell eigvals F2 = inr (eigvals F2)).
Proof.
  exact (proj2 (closed_loop_matrix 2 1 1 A2 B2 C2 K2 L2 F2
                  A2_shape B2_shape K2_shape L2_shape C2_shape F2_cell)).
Defined.

Lemma Forall_zero_app (u v : list R) :
  Forall (fun x => x = 0) (u ++ v)
  <-> Forall (fun x => x = 0) u /\ Forall (fun x => x = 0) v.
Proof. apply Forall_app. Qed.

Lemma has_shape_rows r c X :
  has_shape r c X -> Forall (fun row => length row = ncols X) X.
Proof.
  intros [Hl Hr]. destruct X as [|row X]; [constructor|].
  simpl. inversion Hr; subst. now constructor.
Qed.


Lemma A6_shape : has_shape 6 6 A6.
Proof. split; [reflexivity|]. repeat constructor. Qed.
Lemma C6_shape : has_shape 1 6 C6.
Proof. split; [reflexivity|]. repeat constructor. Qed.





(** C1, as amended.  The controller cell asks [place_poles] for the two
    poles -1, -1 that are written in the cell, for the pair [(A, B)] it
    is given: it returns a gain exactly when that call returns one,
    namely its [gain_matrix], and it fails exactly when that call fails,
    with the same exception.  It tests nothing itself. *)
Theorem controller_cell_forwards
    (place_poles : Design.place_poles_type) (A B : array) :
  (forall Kg : array,
      Design.K place_poles A B = inr Kg <->
      exists res, place_poles A B [-1; -1] = inr res /\
                  Design.gain_matrix res = Kg) /\
  (forall e : Py.exn,
      Design.K place_poles A B = inl e <->
      place_poles A B [-1; -1] = inl e).
Proof.
  unfold Design.K. destruct (place_poles A B [-1; -1]) as [e0|res];
    cbn [Py.bind Py.ok]; split.
  - intros Kg. split; [discriminate|]. intros (res & H & _). discriminate.
  - intros e. split; intros H; injection H as ->; reflexivity.
  - intros Kg. split.
    + intros H. injection H as <-. now exists res.
    + intros (res' & H & <-). injection H as <-. reflexivity.
  - intros e. split; discriminate.
Qed.

Lemma Z6_I6_controllable : Design.spec_controllable 6 Z6 I6.
Proof.
  intros v Hlen Hv.
  specialize (Hv I6 (or_introl eq_refl)).
  do 7 (destruct v as [|? v]; try discriminate Hlen).
  revert Hv. np_compute. intros Hv.
  apply all_zero_6 in Hv. destruct Hv as (? & ? & ? & ? & ? & ?).
  repeat constructor; lra.
Qed.

Lemma Z6_shape : has_shape 6 6 Z6.
Proof. split; [reflexivity|]. repeat constructor. Qed.

Lemma B6_none_not_controllable : ~ Design.spec_controllable 6 A6 B6_none.
Proof.
  intros H. specialize (H [0; 0; 0; 0; 0; 1] eq_refl).
  assert (Hz : forall X, In X (left_powers 6 A6 B6_none) ->
             Forall (fun x => x = 0)
                    (mulvec (transpose X) [0; 0; 0; 0; 0; 1])).
  { intros X HX.
    assert (EX : X = zeros 6 4).
    { revert HX.
      assert (Hstep : mm A6 (zeros 6 4) = zeros 6 4)
        by (np_compute; list_eq; ring).
      unfold B6_none. cbn [left_powers In]. rewrite !Hstep.
      intuition congruence. }
    rewrite EX. np_compute. repeat constructor; ring. }
  specialize (H Hz). apply all_zero_6 in H. lra.
Qed.

(** C1, the claim refuted.  There is no behaviour of [place_poles] under
    which the cell returns, for every controllable pair and every set of
    six stable targets, a gain whose closed loop has exactly the targets
    as eigenvalues: the cell never sees the targets.  And for a pair
    that is not controllable the cell passes on whatever gain
    [place_poles] answers with: it tests nothing itself. *)
Lemma controller_cell_ignores_targets :
  (~ exists place_poles : Design.place_poles_type,
       forall (A B : array) (targets : list R),
         has_shape 6 6 A ->
         Design.spec_controllable 6 A B ->
         length targets = 6%nat ->
         Forall (fun t => t < 0) targets ->
         exists Kg Acl : array,
           Design.K place_poles A B = inr Kg /\
           sub A (mm B Kg) = inr Acl /\
           forall lam : R, eigenvalue Acl lam <-> In lam targets) /\
  (~ Design.spec_controllable 6 A6 B6_none /\
   exists Kg : array, Design.K answering_place_poles A6 B6_none = inr Kg).
Proof.
  split.
  - intros (pp & H).
    destruct (H Z6 I6 (repeat (-1) 6) Z6_shape Z6_I6_controllable eq_refl)
      as (Kg1 & Acl1 & HK1 & HA1 & He1).
    { repeat constructor; lra. }
    destruct (H Z6 I6 (repeat (-2) 6) Z6_shape Z6_I6_controllable eq_refl)
      as (Kg2 & Acl2 & HK2 & HA2 & He2).
    { repeat constructor; lra. }
    rewrite HK1 in HK2. injection HK2 as <-.
    rewrite HA1 in HA2. injection HA2 as <-.
    assert (Hin : In (-1) (repeat (-2) 6)).
    { apply He2, He1. simpl. now left. }
    apply repeat_spec in Hin. lra.
  - split; [exact B6_none_not_controllable|].
    eexists. reflexivity.
Qed.

(** A refusal of [place_poles] is the refusal of the cell. *)
Lemma controller_cell_forwards_witness :
  Design.K refusing_place_poles A2 B2 = inl Py.ValueError.
Proof.
  apply (proj2 (controller_cell_forwards refusing_place_poles A2 B2)).
  reflexivity.
Defined.
End DesignFacts.

(** ** The spacecraft at an equilibrium *)

Section EquilibriumFacts.
Import Sym Linearizer Np.

(** At an operating point without angular velocity, as every equilibrium
    is, the square of the state matrix vanishes. *)
Lemma A_squared_zero (rho : env) :
  rho w_x = 0 -> rho w_y = 0 -> rho w_z = 0 ->
  mm (eval_matrix rho A_sym) (eval_matrix rho A_sym) = zeros 6 6.
Proof.
  intros Hx Hy Hz.
  let v := eval vm_compute in A_sym in change A_sym with v.
  cbv [eval_matrix map eval].
  rewrite Hx, Hy, Hz.
  cbv [mm zeros repeat map seq ncols nrows column dot length nth].
  list_eq; unfold Rdiv; ring.
Qed.

Lemma Forall_zero_repeat n : Forall (fun x : R => x = 0) (repeat 0 n).
Proof. induction n; simpl; constructor; auto. Qed.

Lemma mulvec_zero_image X n :
  Forall (fun x => x = 0) (mulvec X (repeat 0 n)).
Proof.
  rewrite (mulvec_zero_vec X _ (Forall_zero_repeat n)).
  apply Forall_zero_repeat.
Qed.

(** When [A A = 0], the blocks [C A^i] with [i >= 2] send every vector
    to zero: the stack of three blocks has the kernel of the stack of
    six. *)
Lemma three_blocks_suffice (n : nat) (A C : array) (v : list R) :
  has_shape n n A -> mm A A = zeros n n ->
  Forall (fun x => x = 0)
         (mulvec (Design.spec_observability_matrix 6 A C) v)
  <-> Forall (fun x => x = 0)
             (mulvec (Design.spec_observability_matrix 3 A C) v).
Proof.
  intros HA Hsq.
  pose proof (has_shape_rows _ _ _ HA) as Hrows.
  assert (HAA : mulvec A (mulvec A v) = repeat 0 n).
  { rewrite <- (mulvec_mm A A v Hrows), Hsq. apply mulvec_zeros. }
  unfold Design.spec_observability_matrix.
  cbn [right_powers concat].
  rewrite !app_nil_r, !mulvec_app, !Forall_zero_app.
  rewrite !(mulvec_mm _ A) by exact Hrows.
  rewrite HAA.
  pose proof (mulvec_zero_image C n) as Z0.
  pose proof (mulvec_zero_image A n) as Z1.
  assert (Z2 : Forall (fun x => x = 0) (mulvec C (mulvec A (repeat 0 n)))).
  { rewrite (mulvec_zero_vec A _ (Forall_zero_repeat n)).
    apply mulvec_zero_image. }
  assert (Z3 : Forall (fun x => x = 0)
                 (mulvec C (mulvec A (mulvec A (repeat 0 n))))).
  { rewrite (mulvec_zero_vec A _ (Forall_zero_repeat n)).
    rewrite (mulvec_zero_vec A _ (Forall_zero_repeat _)).
    apply mulvec_zero_image. }
  assert (Z4 : Forall (fun x => x = 0)
                 (mulvec C (mulvec A (mulvec A (mulvec A (repeat 0 n)))))).
  { rewrite (mulvec_zero_vec A _ (Forall_zero_repeat n)).
    rewrite (mulvec_zero_vec A _ (Forall_zero_repeat _)).
    rewrite (mulvec_zero_vec A _ (Forall_zero_repeat _)).
    apply mulvec_zero_image. }
  tauto.
Qed.
End EquilibriumFacts.

(** ** The controller class *)

Section ControllerFacts.
Import String Controller.
Local Open Scope string_scope.

Lemma columns_from (a n : nat) :
  flat_map (fun i => [fst (star_columns i); snd (star_columns i)])
           (seq a n)
  = seq (2 * a) (2 * n).
Proof.
  revert a. induction n as [|n IH]; intros a; [reflexivity|].
  cbn [seq flat_map]. rewrite IH.
  replace (2 * S n)%nat with (S (S (2 * n))) by lia.
  cbn [seq app star_columns fst snd].
  replace (2 * a + 1)%nat with (S (2 * a)) by lia.
  replace (2 * S a)%nat with (S (S (2 * a))) by lia.
  reflexivity.
Qed.

(** C8, as amended.  The methods of the class are [__init__], [reset]
    and [run].  [reset()] returns nothing and [run(t, star_meas)]
    returns the four torques (front, back, left, right), all zero in the
    template, both leaving the instance as it was.  The catalogue has 7
    stars, and the columns read per star, [2 i] for [y_i] and [2 i + 1]
    for [z_i], are the indices 0 .. 13 of a measurement vector of length
    14, in order (0 .. 2 n - 1 for [n] stars). *)
Theorem controller_interface (self : t) (t0 : R) (star_meas : list R) :
  methods = ["__init__"; "reset"; "run"] /\
  call self "reset" [] = inr (PyNone, self) /\
  call self "run" [Float t0; Array star_meas]
    = inr (Tuple4 0 0 0 0, self) /\
  List.length Model.stars = 7%nat /\
  columns_read (List.length Model.stars) = seq 0 14 /\
  (forall n : nat, columns_read n = seq 0 (2 * n)) /\
  (forall i : nat,
      star_y star_meas i = nth (2 * i) star_meas 0 /\
      star_z star_meas i = nth (2 * i + 1) star_meas 0).
Proof.
  repeat split.
  intros n. unfold columns_read. apply (columns_from 0 n).
Qed.

(** C8, the claim refuted: the class has no method [step]; a call of
    [step] with a time and a measurement vector of length 14 raises
    [AttributeError]. *)
Lemma controller_has_no_step :
  call instance "step" [Float 0; Array (repeat 0 14)]
    = inl Py.AttributeError /\
  ~ In "step" methods.
Proof.
  split; [reflexivity|].
  unfold methods. simpl. intros [H|[H|[H|[]]]]; discriminate H.
Qed.
End ControllerFacts.

(** ** The equations of motion: kinematics, torques and equilibria *)

Section DynamicsLaws.
Import Sym Model Linearizer.

(** The solutions of the kinematic system [N x = w], written out. *)
Lemma kinematic_system (rho : env) (x y z a b c : R) :
  Np.mulvec (eval_matrix rho N) [x; y; z] = [a; b; c] <->
  - sin (rho theta) * x + z = a /\
  cos (rho theta) * sin (rho phi) * x + cos (rho phi) * y = b /\
  cos (rho theta) * cos (rho phi) * x - sin (rho phi) * y = c.
Proof.
  simpl. split.
  - intros H. injection H as H1 H2 H3.
    repeat split; (etransitivity; [|eassumption]); ring.
  - intros (H1 & H2 & H3). list_eq;
      (etransitivity; [|eassumption]); ring.
Qed.

Lemma kinematic_system_solved (rho : env) (x y z a b c : R) :
  Np.mulvec (eval_matrix rho N) [x; y; z] = [a; b; c] ->
  cos (rho theta) * x = b * sin (rho phi) + c * cos (rho phi) /\
  y = b * cos (rho phi) - c * sin (rho phi) /\
  z = a + sin (rho theta) * x.
Proof.
  intros H. apply kinematic_system in H. destruct H as (H1 & H2 & H3).
  pose proof (cos2_as_sin2 (rho phi)) as Hphi.
  subst a b c. repeat split; ring [Hphi].
Qed.

(** X1.  The matrix [N] of the kinematic equations, which the notebook
    inverts to get [M], is singular (it sends a nonzero vector to zero)
    exactly at the operating points with cos theta = 0. *)
Theorem kinematic_matrix_singular_iff (rho : env) :
  (exists x y z : R,
      Np.nonzero [x; y; z] /\
      Np.mulvec (eval_matrix rho N) [x; y; z] = [0; 0; 0])
  <-> cos (rho theta) = 0.
Proof.
  split.
  - intros (x & y & z & Hnz & H).
    destruct (Req_dec (cos (rho theta)) 0) as [Hc|Hc]; [exact Hc|].
    exfalso.
    apply kinematic_system_solved in H. destruct H as (Hx & Hy & Hz).
    assert (x = 0).
    { apply (Rmult_eq_reg_l (cos (rho theta))); [|exact Hc].
      rewrite Hx. ring. }
    subst x.
    assert (y = 0) by (rewrite Hy; ring).
    assert (z = 0) by (rewrite Hz; ring).
    subst y z.
    unfold Np.nonzero in Hnz.
    repeat match goal with
           | H : Exists _ _ |- _ => inversion H; clear H; subst
           end; lra.
  - intros Hc. exists 1, 0, (sin (rho theta)). split.
    + apply Exists_cons_hd. lra.
    + apply kinematic_system. rewrite Hc. repeat split; ring.
Qed.

Lemma sqrt2_pos : 0 < sqrt 2.
Proof. apply sqrt_lt_R0. lra. Qed.

(** X2.  The equilibria of the equations of motion: [f] evaluates to the
    zero column exactly when cos theta is not zero, the angular velocity
    is zero, and the wheel torques satisfy tau_1 = tau_2, tau_3 = tau_4
    and tau_1 + tau_3 = 0 (the angles are free). *)
Theorem equilibria_of_f (rho : env) :
  numeric rho f = map (fun _ => [Some 0]) f <->
  cos (rho theta) <> 0 /\
  rho w_x = 0 /\ rho w_y = 0 /\ rho w_z = 0 /\
  rho tau_1 = rho tau_2 /\ rho tau_3 = rho tau_4 /\
  rho tau_1 + rho tau_3 = 0.
Proof.
  pose proof (cos2_as_sin2 (rho phi)) as Hphi.
  pose proof sqrt2_pos as Hs.
  split.
  - intros H.
    pose proof (equilibrium_off_singularity rho H) as Hc.
    rewrite (numeric_smooth _ _ (f_smooth rho Hc)) in H.
    unfold eval_matrix, f in H. simpl in H.
    injection H as E0 E1 E2 E3 E4 E5.
    assert (F0 : rho w_y * sin (rho phi) + rho w_z * cos (rho phi) = 0).
    { apply (Rmult_eq_reg_r (/ cos (rho theta)));
        [|now apply Rinv_neq_0_compat].
      rewrite Rmult_0_l. exact E0. }
    assert (Hy : rho w_y = 0).
    { transitivity
        (sin (rho phi) * (rho w_y * sin (rho phi) + rho w_z * cos (rho phi))
         + cos (rho phi) * (rho w_y * cos (rho phi) - rho w_z * sin (rho phi)));
        [ring [Hphi]|]. rewrite F0, E1. ring. }
    assert (Hz : rho w_z = 0).
    { transitivity
        (cos (rho phi) * (rho w_y * sin (rho phi) + rho w_z * cos (rho phi))
         - sin (rho phi) * (rho w_y * cos (rho phi) - rho w_z * sin (rho phi)));
        [ring [Hphi]|]. rewrite F0, E1. ring. }
    rewrite Hy, Hz in *.
    assert (Hx : rho w_x = 0) by (rewrite <- E2; ring).
    rewrite Hx in *.
    assert (G3 : sqrt 2 * (rho tau_2 - rho tau_1) = 0) by lra.
    assert (G4 : sqrt 2 * (rho tau_4 - rho tau_3) = 0) by lra.
    assert (G5 : sqrt 2 * (rho tau_1 + rho tau_2 + rho tau_3 + rho tau_4) = 0)
      by lra.
    apply Rmult_integral in G3, G4, G5.
    repeat split; try assumption; try reflexivity; lra.
  - intros (Hc & Hx & Hy & Hz & H12 & H34 & H13).
    rewrite (numeric_smooth _ _ (f_smooth rho Hc)).
    unfold eval_matrix, f. simpl.
    rewrite Hx, Hy, Hz, <- H12, <- H34.
    replace (rho tau_3) with (- rho tau_1) by lra.
    list_eq; apply f_equal; unfold tan; field; assumption.
Qed.

(** The resultant torque of the four wheels. *)
Lemma resultant_torque (rho : env) :
  let l := 11 / 10 * sqrt 2 / 2 in
  eval_matrix rho T
  = [[l * (rho tau_2 - rho tau_1)];
     [l * (rho tau_4 - rho tau_3)];
     [- l * (rho tau_1 + rho tau_2 + rho tau_3 + rho tau_4)]].
Proof.
  intros l. unfold l, eval_matrix, T. simpl. list_eq; field.
Qed.

(** X3.  Every body torque is the resultant [T] of some wheel torques,
    and the wheel torques without resultant are those with tau_2 = tau_1
    and tau_3 = tau_4 = - tau_1: the four wheels are one more than the
    three axes need. *)
Theorem wheel_torques_span_body_torques :
  (forall a b c : R,
      exists t1 t2 t3 t4 : R,
        eval_matrix (op_env 0 0 0 0 0 0 t1 t2 t3 t4) T = [[a]; [b]; [c]]) /\
  (forall rho : env,
      eval_matrix rho T = [[0]; [0]; [0]] <->
      rho tau_2 = rho tau_1 /\ rho tau_3 = - rho tau_1 /\
      rho tau_4 = - rho tau_1).
Proof.
  pose proof sqrt2_pos as Hs.
  split.
  - intros a b c.
    set (l := 11 / 10 * sqrt 2 / 2).
    assert (Hl : l <> 0) by (unfold l; lra).
    exists (- a / (2 * l) - c / (4 * l)), (a / (2 * l) - c / (4 * l)),
           (- b / (2 * l) - c / (4 * l)), (b / (2 * l) - c / (4 * l)).
    rewrite resultant_torque. fold l.
    cbn [op_env bind_args state_symbols input_symbols app symbol_eqb].
    list_eq; field; exact Hl.
  - intros rho. rewrite resultant_torque. cbv zeta.
    set (l := 11 / 10 * sqrt 2 / 2).
    assert (Hl : l <> 0) by (unfold l; lra).
    split.
    + intros H. injection H as H1 H2 H3.
      apply Rmult_integral in H1, H2.
      assert (H3' : l * (rho tau_1 + rho tau_2 + rho tau_3 + rho tau_4) = 0)
        by lra.
      apply Rmult_integral in H3'.
      repeat split; lra.
    + intros (H2 & H3 & H4). rewrite H2, H3, H4. list_eq; ring.
Qed.

(** X4.  Power balance of Euler's equations as [f] has them: the three
    angular accelerations are finite at every operating point, and the
    rate of the kinetic energy, the sum of J_i w_i dw_i over the axes,
    is the power T . w of the resultant torque (the gyroscopic terms do
    no work). *)
Theorem euler_power_balance (rho : env) :
  let J_x := Q2R Jxb + 4 * Q2R mw * (Q2R lw) ^ 2 in
  let J_y := Q2R Jyb + 4 * Q2R mw * (Q2R lw) ^ 2 in
  let J_z := Q2R Jzb + 4 * Q2R mw * (Q2R lw) ^ 2 in
  exists dwx dwy dwz : R,
    evalf rho (entry f 3 0) = Some dwx /\
    evalf rho (entry f 4 0) = Some dwy /\
    evalf rho (entry f 5 0) = Some dwz /\
    J_x * rho w_x * dwx + J_y * rho w_y * dwy + J_z * rho w_z * dwz
    = eval rho (entry T 0 0) * rho w_x
      + eval rho (entry T 1 0) * rho w_y
      + eval rho (entry T 2 0) * rho w_z.
Proof.
  intros J_x J_y J_z.
  exists (eval rho (entry f 3 0)), (eval rho (entry f 4 0)),
         (eval rho (entry f 5 0)).
  pose proof sqrt2_pos as Hs.
  repeat split;
    try (apply evalf_smooth; simpl; repeat split; try exact I; lra).
  unfold J_x, J_y, J_z, Q2R. simpl. field.
Qed.

(** X5.  The orientation matrix [Rz Ry Rx] is orthogonal at every
    attitude: its transpose is its inverse on both sides. *)
Theorem R_body_in_space_orthogonal (rho : env) :
  let R := eval_matrix rho R_body_in_space in
  Np.mm (Np.transpose R) R = [[1; 0; 0]; [0; 1; 0]; [0; 0; 1]] /\
  Np.mm R (Np.transpose R) = [[1; 0; 0]; [0; 1; 0]; [0; 0; 1]].
Proof.
  pose proof (cos2_as_sin2 (rho psi)) as Cpsi.
  pose proof (cos2_as_sin2 (rho theta)) as Cth.
  pose proof (cos2_as_sin2 (rho phi)) as Cphi.
  intros R. unfold R. split; simpl; list_eq; ring [Cpsi Cth Cphi].
Qed.

(** X6.  The equations of motion do not depend on the yaw angle:
    changing psi changes no entry of [f]. *)
Theorem f_independent_of_yaw (rho : env) (x : R) :
  numeric (upd rho psi x) f = numeric rho f.
Proof.
  unfold numeric.
  apply map_ext_in. intros row Hrow. apply map_ext_in. intros e He.
  apply evalf_ext. intros s Hs. unfold upd.
  destruct (symbol_eqb_spec psi s) as [<-|_]; [|reflexivity].
  exfalso. revert Hs.
  unfold f in Hrow. simpl in Hrow.
  repeat (destruct Hrow as [<-|Hrow];
          [destruct He as [<-|[]]; discriminate|]).
  destruct Hrow.
Qed.
End DynamicsLaws.

(** ** The geometry of the star tracker *)

Section SensorGeometry.
Import Sym Model.

(** X7.  A star on the boresight (alpha = psi and delta = - theta) is
    imaged at the origin, by [g] and by the unsimplified
    [p_star_in_image], whatever the roll. *)
Theorem boresight_star_at_origin (rho : env) :
  rho alpha = rho psi -> rho delta = - rho theta ->
  numeric rho g = [[Some 0]; [Some 0]] /\
  numeric rho p_star_in_image = [[Some 0]; [Some 0]].
Proof.
  intros Ha Hd.
  pose proof (sin2_plus_cos2 (rho theta)) as Hth.
  assert (Hp : px_closed rho = 1).
  { unfold px_closed. rewrite Ha, Hd, Rminus_diag, cos_0, sin_neg, cos_neg.
    lra. }
  assert (Hp' : px_closed rho <> 0) by lra.
  assert (E : numeric rho g = [[Some 0]; [Some 0]]).
  { rewrite (numeric_smooth _ _ (g_smooth rho Hp')).
    unfold eval_matrix, g. simpl.
    unfold px_closed in Hp.
    rewrite Ha, Hd, Rminus_diag, cos_0, sin_0, sin_neg, cos_neg in *.
    list_eq; apply f_equal; field; lra. }
  split; [exact E|].
  rewrite (numeric_smooth _ _ (p_star_in_image_smooth rho Hp')).
  rewrite (g_eval_derived rho Hp').
  now rewrite <- (numeric_smooth _ _ (g_smooth rho Hp')).
Qed.

(** X8.  For a star off the image singularity the squared distance of
    its image from the origin is (21/8)^2 (1 - px^2) / px^2, where px is
    the component of the star direction along the boresight: it depends
    on the angle between star and boresight alone. *)
Theorem image_radius (rho : env) :
  px_closed rho <> 0 ->
  exists y z : R,
    numeric rho g = [[Some y]; [Some z]] /\
    y * y + z * z
    = (21 / 8) ^ 2 * (1 - px_closed rho ^ 2) / px_closed rho ^ 2.
Proof.
  intros Hp.
  pose proof (cos2_as_sin2 (rho theta)) as Cth.
  pose proof (cos2_as_sin2 (rho phi)) as Cphi.
  pose proof (cos2_as_sin2 (rho delta)) as Cde.
  pose proof (cos2_as_sin2 (rho alpha - rho psi)) as Cap.
  do 2 eexists. split.
  { rewrite (numeric_smooth _ _ (g_smooth rho Hp)).
    unfold eval_matrix, g. simpl. reflexivity. }
  unfold px_closed in *.
  field_simplify_eq; [|lra].
  ring [Cth Cphi Cde Cap].
Qed.

(** X9.  A roll turns the image about the origin: the image at roll phi
    is the image at roll zero rotated by phi. *)
Theorem roll_turns_image (rho : env) :
  px_closed rho <> 0 ->
  exists y0 z0 : R,
    numeric (upd rho phi 0) g = [[Some y0]; [Some z0]] /\
    numeric rho g
    = [[Some (cos (rho phi) * y0 + sin (rho phi) * z0)];
       [Some (- sin (rho phi) * y0 + cos (rho phi) * z0)]].
Proof.
  intros Hp.
  assert (Hp0 : px_closed (upd rho phi 0) <> 0) by exact Hp.
  do 2 eexists. split.
  { rewrite (numeric_smooth _ _ (g_smooth _ Hp0)).
    unfold eval_matrix, g. simpl. reflexivity. }
  rewrite (numeric_smooth _ _ (g_smooth _ Hp)).
  unfold eval_matrix, g. simpl.
  unfold upd. simpl. rewrite sin_0, cos_0.
  unfold px_closed in Hp.
  list_eq; apply f_equal; field; lra.
Qed.

(** X10.  At the zero attitude the sensor is a pinhole camera of focal
    length 21/8: a star at (alpha, delta) is imaged at y = 21/8 tan
    alpha and z = 21/8 tan delta / cos alpha. *)
Theorem pinhole_at_zero_attitude (rho : env) :
  rho psi = 0 -> rho theta = 0 -> rho phi = 0 ->
  cos (rho alpha) <> 0 -> cos (rho delta) <> 0 ->
  numeric rho g
  = [[Some (21 / 8 * tan (rho alpha))];
     [Some (21 / 8 * (tan (rho delta) / cos (rho alpha)))]].
Proof.
  intros H1 H2 H3 Ca Cd.
  assert (Hp : px_closed rho = cos (rho delta) * cos (rho alpha)).
  { unfold px_closed. rewrite H1, H2, Rminus_0_r, sin_0, cos_0. ring. }
  assert (Hp' : px_closed rho <> 0).
  { rewrite Hp. now apply Rmult_integral_contrapositive_currified. }
  rewrite (numeric_smooth _ _ (g_smooth _ Hp')).
  unfold eval_matrix, g. simpl.
  rewrite H1, H2, H3, Rminus_0_r, sin_0, cos_0.
  unfold tan. list_eq; apply f_equal; field; auto.
Qed.

(** The star at (0, 0) seen from the zero attitude. *)
Lemma boresight_star_at_origin_witness :
  numeric zero_env g = [[Some 0]; [Some 0]].
Proof.
  assert (H : zero_env delta = - zero_env theta)
    by (unfold zero_env; lra).
  exact (proj1 (boresight_star_at_origin zero_env eq_refl H)).
Defined.

Lemma zero_env_px_closed : px_closed zero_env <> 0.
Proof.
  unfold px_closed, zero_env. rewrite Rminus_0_r, cos_0, sin_0. lra.
Qed.

Lemma image_radius_witness :
  exists y z : R,
    numeric zero_env g = [[Some y]; [Some z]] /\
    y * y + z * z
    = (21 / 8) ^ 2 * (1 - px_closed zero_env ^ 2) / px_closed zero_env ^ 2.
Proof. exact (image_radius zero_env zero_env_px_closed). Defined.

Lemma roll_turns_image_witness :
  exists y0 z0 : R,
    numeric (upd zero_env phi 0) g = [[Some y0]; [Some z0]] /\
    numeric zero_env g
    = [[Some (cos (zero_env phi) * y0 + sin (zero_env phi) * z0)];
       [Some (- sin (zero_env phi) * y0 + cos (zero_env phi) * z0)]].
Proof. exact (roll_turns_image zero_env zero_env_px_closed). Defined.

Lemma pinhole_at_zero_attitude_witness :
  numeric zero_env g
  = [[Some (21 / 8 * tan (zero_env alpha))];
     [Some (21 / 8 * (tan (zero_env delta) / cos (zero_env alpha)))]].
Proof.
  assert (H : cos 0 <> 0) by (rewrite cos_0; lra).
  exact (pinhole_at_zero_attitude zero_env eq_refl eq_refl eq_refl H H).
Defined.
End SensorGeometry.

(** ** The linearizer: what the arrays are *)

Section LinearizerSoundness.
Import Sym Linearizer.

Lemma jacobian_rows_sound (rho : env) (X : list symbol) (es : list expr) :
  Forall (smooth rho) es ->
  Forall2
    (fun e row =>
       Forall2
         (fun s d =>
            derivable_pt_lim (fun x => eval (upd rho s x) e) (rho s) d)
         X row)
    es
    (eval_matrix rho (map (fun e => map (fun x => diff x e) X) es)).
Proof.
  intros Hes. induction Hes as [|e es He _ IH]; simpl; constructor.
  - clear IH. induction X as [|s X IHX]; simpl; constructor.
    + now apply diff_sound.
    + exact IHX.
  - exact IH.
Qed.

Lemma A_sym_rows :
  A_sym = map (fun e => map (fun x => diff x e) state_symbols)
              (column Model.f 0).
Proof. vm_compute. reflexivity. Qed.

Lemma f_column_smooth (rho : env) :
  cos (rho theta) <> 0 -> Forall (smooth rho) (column Model.f 0).
Proof.
  intros Hc. pose proof (f_smooth rho Hc) as H.
  unfold column. rewrite Forall_map.
  revert H. apply Forall_impl. intros row Hrow.
  destruct Hrow; simpl; [exact I|assumption].
Qed.

(** X11.  Off the singularity the array [A] that [get_model] returns
    holds, entry by entry, the partial derivatives of the entries of [f]
    with respect to the six states at the operating point. *)
Theorem state_jacobian_is_derivative
    (psi_e theta_e phi_e w_x_e w_y_e w_z_e
     tau_1_e tau_2_e tau_3_e tau_4_e : R) :
  cos theta_e <> 0 ->
  let rho := op_env psi_e theta_e phi_e w_x_e w_y_e w_z_e
                    tau_1_e tau_2_e tau_3_e tau_4_e in
  exists (a : list (list R)) (B : ndarray),
    get_model notebook psi_e theta_e phi_e w_x_e w_y_e w_z_e
              tau_1_e tau_2_e tau_3_e tau_4_e
    = (inr (map (map Some) a, B), notebook) /\
    Forall2
      (fun e row =>
         Forall2
           (fun s d =>
              derivable_pt_lim (fun x => eval (upd rho s x) e) (rho s) d)
           state_symbols row)
      (column Model.f 0) a.
Proof.
  intros Hc rho.
  assert (Hc' : cos (rho theta) <> 0) by exact Hc.
  exists (eval_matrix rho A_sym), (numeric rho B_sym). split.
  - rewrite get_model_notebook. fold rho.
    rewrite (numeric_smooth rho A_sym); [reflexivity|].
    exact (jacobian_smooth _ _ _ _ A_sym_jacobian (f_smooth rho Hc')).
  - rewrite A_sym_rows. apply jacobian_rows_sound.
    now apply f_column_smooth.
Qed.

(** X12.  In a namespace where [f] is not bound (the cell of the
    dynamics model has not run), [get_model] ends in [NameError] at
    every operating point and leaves the namespace as it was. *)
Theorem get_model_needs_f (G : globals)
    (psi_e theta_e phi_e w_x_e w_y_e w_z_e
     tau_1_e tau_2_e tau_3_e tau_4_e : R) :
  gl_f G = None ->
  get_model G psi_e theta_e phi_e w_x_e w_y_e w_z_e
            tau_1_e tau_2_e tau_3_e tau_4_e
  = (inl Py.NameError, G).
Proof. intros H. unfold get_model. now rewrite H. Qed.

Lemma cos_0_nonzero : cos 0 <> 0.
Proof. rewrite cos_0. lra. Qed.

(** The equilibrium of the notebook, where every argument is zero. *)
Lemma state_jacobian_is_derivative_witness :
  exists (a : list (list R)) (B : ndarray),
    get_model notebook 0 0 0 0 0 0 0 0 0 0
    = (inr (map (map Some) a, B), notebook).
Proof.
  destruct (state_jacobian_is_derivative 0 0 0 0 0 0 0 0 0 0 cos_0_nonzero)
    as (a & B & E & _).
  exists a, B. exact E.
Defined.

(** Before cell 4 has run there is no [f]. *)
Lemma get_model_needs_f_witness :
  get_model {| gl_f := None; gl_g := None |} 0 0 0 0 0 0 0 0 0 0
  = (inl Py.NameError, {| gl_f := None; gl_g := None |}).
Proof.
  exact (get_model_needs_f {| gl_f := None; gl_g := None |}
           0 0 0 0 0 0 0 0 0 0 eq_refl).
Defined.
End LinearizerSoundness.

(** ** The linearized model at rest *)

Section ModelAtRest.
Import Sym Linearizer Np AtRest.

Lemma B_sym_numeric (rho : env) : numeric rho B_sym = map (map Some) B_rest.
Proof.
  rewrite (numeric_smooth _ B_sym (B_sym_smooth _)). apply f_equal.
  let v := eval vm_compute in B_sym in change B_sym with v.
  unfold B_rest. cbn [eval_matrix map eval].
  list_eq; field.
Qed.

Lemma A_sym_at_rest (rho : env) :
  cos (rho theta) <> 0 ->
  rho w_x = 0 -> rho w_y = 0 -> rho w_z = 0 ->
  eval_matrix rho A_sym = A_rest (rho theta) (rho phi).
Proof.
  intros Hc Hx Hy Hz.
  let v := eval vm_compute in A_sym in change A_sym with v.
  unfold A_rest. cbn [eval_matrix map eval].
  rewrite Hx, Hy, Hz.
  unfold tan. list_eq; field; exact Hc.
Qed.

(** X13.  At an operating point at rest (no angular velocity) off the
    singularity, [get_model] returns the state matrix [A_rest] and the
    input matrix [B_rest] in closed form, whatever the wheel torques and
    the yaw; the square of that state matrix is zero. *)
Theorem state_matrix_at_rest
    (psi_e theta_e phi_e tau_1_e tau_2_e tau_3_e tau_4_e : R) :
  cos theta_e <> 0 ->
  get_model notebook psi_e theta_e phi_e 0 0 0
            tau_1_e tau_2_e tau_3_e tau_4_e
  = (inr (map (map Some) (A_rest theta_e phi_e), map (map Some) B_rest),
     notebook) /\
  mm (A_rest theta_e phi_e) (A_rest theta_e phi_e) = zeros 6 6.
Proof.
  intros Hc. split.
  - rewrite get_model_notebook. cbv zeta.
    set (rho := op_env psi_e theta_e phi_e 0 0 0
                       tau_1_e tau_2_e tau_3_e tau_4_e).
    assert (Hc' : cos (rho theta) <> 0) by exact Hc.
    rewrite B_sym_numeric.
    rewrite (numeric_smooth rho A_sym)
      by exact (jacobian_smooth _ _ _ _ A_sym_jacobian (f_smooth rho Hc')).
    apply f_equal2; [|reflexivity]. apply f_equal.
    apply f_equal2; [|reflexivity]. apply f_equal.
    apply A_sym_at_rest; [exact Hc|reflexivity..].
  - unfold A_rest.
    cbv [mm zeros repeat map seq ncols nrows column dot length nth].
    list_eq; ring.
Qed.

Lemma all_zero_4 (a b c d : R) :
  Forall (fun x => x = 0) [a; b; c; d] ->
  a = 0 /\ b = 0 /\ c = 0 /\ d = 0.
Proof.
  intros H.
  repeat match goal with
         | H : Forall _ (_ :: _) |- _ => inversion H; clear H; subst
         end.
  repeat split; assumption.
Qed.

Lemma A_rest_B_rest (th ph : R) :
  cos th <> 0 ->
  mm (A_rest th ph) B_rest =
  let b := 55 * sqrt 2 / 1484 in
  let c := 55 * sqrt 2 / 2084 in
  [[- c * (cos ph / cos th); - c * (cos ph / cos th);
    - b * (sin ph / cos th) - c * (cos ph / cos th);
    b * (sin ph / cos th) - c * (cos ph / cos th)];
   [c * sin ph; c * sin ph; - b * cos ph + c * sin ph;
    b * cos ph + c * sin ph];
   [- b - c * (cos ph * tan th); b - c * (cos ph * tan th);
    - b * (sin ph * tan th) - c * (cos ph * tan th);
    b * (sin ph * tan th) - c * (cos ph * tan th)];
   [0; 0; 0; 0]; [0; 0; 0; 0]; [0; 0; 0; 0]].
Proof.
  intros Hc. unfold A_rest, B_rest.
  cbv [mm zeros repeat map seq ncols nrows column dot length nth].
  list_eq; unfold tan; field; exact Hc.
Qed.

Lemma rest_pair_controllable (th ph : R) :
  cos th <> 0 -> Design.spec_controllable 6 (A_rest th ph) B_rest.
Proof.
  intros Hc v Hlen Hv.
  pose proof (Hv _ (or_introl eq_refl)) as H1.
  pose proof (Hv _ (or_intror (or_introl eq_refl))) as H2.
  clear Hv.
  rewrite (A_rest_B_rest th ph Hc) in H2.
  do 7 (destruct v as [|? v]; try discriminate Hlen).
  clear Hlen.
  pose proof sqrt2_pos as Hs.
  unfold B_rest in H1.
  cbv [transpose mulvec map seq ncols nrows column dot length nth] in H1, H2.
  apply all_zero_4 in H1. destruct H1 as (E1 & E2 & E3 & E4).
  apply all_zero_4 in H2. destruct H2 as (G1 & G2 & G3 & G4).
  set (b := 55 * sqrt 2 / 1484) in *.
  set (c := 55 * sqrt 2 / 2084) in *.
  assert (Hb : 0 < b) by (unfold b; lra).
  assert (Hcpos : 0 < c) by (unfold c; lra).
  assert (F3 : r2 = 0) by nra.
  assert (F4 : r3 = 0) by nra.
  assert (F5 : r4 = 0) by nra.
  assert (F2 : r1 = 0).
  { assert (H : b * r1 = 0) by lra.
    apply Rmult_integral in H. lra. }
  subst r1 r2 r3 r4.
  assert (U3 : cos ph / cos th * r - sin ph * r0 = 0).
  { assert (H : c * (cos ph / cos th * r - sin ph * r0) = 0) by lra.
    apply Rmult_integral in H. lra. }
  assert (U2 : sin ph / cos th * r + cos ph * r0 = 0).
  { assert (H : b * (sin ph / cos th * r + cos ph * r0) = 0) by lra.
    apply Rmult_integral in H. lra. }
  pose proof (sin2_plus_cos2 ph) as Hsc.
  assert (F1 : r0 = 0).
  { replace r0 with
      ((sin ph * sin ph + cos ph * cos ph) * r0) by (rewrite Hsc; ring).
    transitivity
      (cos ph * (sin ph / cos th * r + cos ph * r0)
       - sin ph * (cos ph / cos th * r - sin ph * r0));
      [field; exact Hc|rewrite U2, U3; ring]. }
  subst r0.
  assert (F0 : r = 0).
  { replace r with
      (cos th * ((sin ph * sin ph + cos ph * cos ph) * (r / cos th)))
      by (rewrite Hsc; field; exact Hc).
    transitivity
      (cos th * (sin ph * (sin ph / cos th * r + cos ph * 0)
       + cos ph * (cos ph / cos th * r - sin ph * 0)));
      [field; exact Hc|rewrite U2, U3; ring]. }
  subst r. repeat constructor.
Qed.

(** X14.  At every operating point at rest off the singularity the pair
    [(A, B)] that [get_model] returns is controllable: a row vector that
    annihilates [B] and [A B] is zero. *)
Theorem rest_model_controllable
    (psi_e theta_e phi_e tau_1_e tau_2_e tau_3_e tau_4_e : R) :
  cos theta_e <> 0 ->
  exists a b : array,
    get_model notebook psi_e theta_e phi_e 0 0 0
              tau_1_e tau_2_e tau_3_e tau_4_e
    = (inr (map (map Some) a, map (map Some) b), notebook) /\
    has_shape 6 6 a /\ has_shape 6 4 b /\
    Design.spec_controllable 6 a b.
Proof.
  intros Hc. exists (A_rest theta_e phi_e), B_rest.
  split; [|split; [|split]].
  - rewrite get_model_notebook. cbv zeta.
    set (rho := op_env psi_e theta_e phi_e 0 0 0
                       tau_1_e tau_2_e tau_3_e tau_4_e).
    assert (Hc' : cos (rho theta) <> 0) by exact Hc.
    rewrite B_sym_numeric.
    rewrite (numeric_smooth rho A_sym)
      by exact (jacobian_smooth _ _ _ _ A_sym_jacobian (f_smooth rho Hc')).
    apply f_equal2; [|reflexivity]. apply f_equal.
    apply f_equal2; [|reflexivity]. apply f_equal.
    apply A_sym_at_rest; [exact Hc|reflexivity..].
  - split; [reflexivity|]. repeat constructor.
  - split; [reflexivity|]. repeat constructor.
  - apply rest_pair_controllable, Hc.
Qed.

Lemma state_matrix_at_rest_witness :
  get_model notebook 0 0 0 0 0 0 0 0 0 0
  = (inr (map (map Some) (A_rest 0 0), map (map Some) B_rest), notebook).
Proof.
  exact (proj1 (state_matrix_at_rest 0 0 0 0 0 0 0 cos_0_nonzero)).
Defined.

Lemma rest_model_controllable_witness :
  exists a b : array,
    get_model notebook 0 0 0 0 0 0 0 0 0 0
    = (inr (map (map Some) a, map (map Some) b), notebook) /\
    Design.spec_controllable 6 a b.
Proof.
  destruct (rest_model_controllable 0 0 0 0 0 0 0 cos_0_nonzero)
    as (a & b & E & _ & _ & H).
  exists a, b. split; assumption.
Defined.
End ModelAtRest.

(** ** The design cells on arrays of given shapes *)

Section DesignShapes.
Import Np Examples AtRest.

Lemma shape_2_2 (X : array) :
  has_shape 2 2 X -> exists a b c d : R, X = [[a; b]; [c; d]].
Proof.
  intros [Hl Hr].
  do 3 (destruct X as [|? X]; try discriminate Hl).
  inversion Hr as [|? ? Hr1 Hr']; subst.
  inversion Hr' as [|? ? Hr2 _]; subst.
  do 3 (destruct l as [|? l]; try discriminate Hr1).
  do 3 (destruct l0 as [|? l0]; try discriminate Hr2).
  now eexists _, _, _, _.
Qed.

Lemma matmul_conforming r c k X Y :
  has_shape r c X -> has_shape c k Y -> (0 < r)%nat ->
  matmul X Y = inr (mm X Y).
Proof.
  intros HX [HYl _] Hr. unfold matmul.
  rewrite (has_shape_ncols _ _ _ HX Hr). unfold nrows. rewrite HYl.
  now rewrite Nat.eqb_refl.
Qed.

Lemma sub_conforming r c X Y :
  has_shape r c X -> has_shape r c Y -> (0 < r)%nat ->
  sub X Y = inr (zip_rows Rminus X Y).
Proof.
  intros HX HY Hr. unfold sub.
  rewrite (has_shape_ncols _ _ _ HX Hr), (has_shape_ncols _ _ _ HY Hr).
  destruct HX as [HXl _]. destruct HY as [HYl _].
  unfold nrows. rewrite HXl, HYl. now rewrite !Nat.eqb_refl.
Qed.

Lemma has_shape_mm_cols r c k X Y :
  has_shape r c X -> has_shape c k Y -> (0 < c)%nat ->
  has_shape r k (mm X Y).
Proof.
  intros HX HY Hc. rewrite <- (has_shape_ncols _ _ _ HY Hc).
  now apply has_shape_mm with c.
Qed.

(** A real eigenvalue of [P] is one of [[P, Q], [0, S]]; and so is one
    of [S], for blocks of two rows and columns. *)
Lemma block_triangular_eigenvalue_2 (P Q S : array) (lam : R) :
  has_shape 2 2 P -> has_shape 2 2 Q -> has_shape 2 2 S ->
  eigenvalue P lam \/ eigenvalue S lam ->
  eigenvalue (map (fun p => fst p ++ snd p) (combine P Q)
              ++ map (fun p => fst p ++ snd p) (combine (zeros 2 2) S)) lam.
Proof.
  intros HP HQ HS H.
  destruct (shape_2_2 _ HP) as (a & b & c & d & ->).
  destruct (shape_2_2 _ HQ) as (q1 & q2 & q3 & q4 & ->).
  destruct (shape_2_2 _ HS) as (s1 & s2 & s3 & s4 & ->).
  cbv [zeros repeat combine map fst snd app].
  assert (HPF : forall x1 x2, nonzero [x1; x2] ->
            mulvec [[a; b]; [c; d]] [x1; x2] = map (Rmult lam) [x1; x2] ->
            eigenvalue [[a; b; q1; q2]; [c; d; q3; q4];
                        [0; 0; s1; s2]; [0; 0; s3; s4]] lam).
  { intros x1 x2 Hnz Hx. exists [x1; x2; 0; 0].
    split; [reflexivity|]. split.
    - inversion Hnz as [? ? H1|? ? H1]; subst;
        [now apply Exists_cons_hd|].
      apply Exists_cons_tl.
      inversion H1 as [? ? H2|? ? H2]; subst;
        [now apply Exists_cons_hd|inversion H2].
    - cbv [mulvec map dot] in Hx |- *.
      injection Hx as Hx1 Hx2.
      list_eq; lra. }
  destruct H as [(v & Hlen & Hnz & Hv)|(v & Hlen & Hnz & Hv)].
  - do 3 (destruct v as [|? v]; try discriminate Hlen).
    now apply HPF with r r0.
  - do 3 (destruct v as [|? v]; try discriminate Hlen).
    rename r into e1, r0 into e2.
    cbv [mulvec map dot] in Hv. injection Hv as Hv1 Hv2.
    destruct (Req_dec_T ((a - lam) * (d - lam) - b * c) 0) as [Hd|Hd].
    + (* [lam] is an eigenvalue of [P] *)
      destruct (Req_dec_T b 0) as [Hb|Hb];
        [destruct (Req_dec_T (lam - a) 0) as [Ha|Ha];
         [destruct (Req_dec_T c 0) as [Hcz|Hcz];
          [destruct (Req_dec_T (lam - d) 0) as [Hdz|Hdz]|]|]|].
      * apply HPF with 1 0; [apply Exists_cons_hd; lra|].
        cbv [mulvec map dot]. list_eq; nra.
      * apply HPF with (lam - d) c; [apply Exists_cons_hd; lra|].
        cbv [mulvec map dot]. list_eq; nra.
      * apply HPF with (lam - d) c;
          [apply Exists_cons_tl, Exists_cons_hd; lra|].
        cbv [mulvec map dot]. list_eq; nra.
      * apply HPF with b (lam - a);
          [apply Exists_cons_tl, Exists_cons_hd; lra|].
        cbv [mulvec map dot]. list_eq; nra.
      * apply HPF with b (lam - a); [apply Exists_cons_hd; lra|].
        cbv [mulvec map dot]. list_eq; nra.
    + set (r1 := q1 * e1 + q2 * e2). set (r2 := q3 * e1 + q4 * e2).
      set (D := (a - lam) * (d - lam) - b * c) in *.
      exists [(- (d - lam) * r1 + b * r2) / D;
              (c * r1 - (a - lam) * r2) / D; e1; e2].
      split; [reflexivity|]. split.
      * do 2 apply Exists_cons_tl. exact Hnz.
      * cbv [mulvec map dot]. list_eq.
        -- unfold r1, r2, D. field [Hv1 Hv2]. exact Hd.
        -- unfold r1, r2, D. field [Hv1 Hv2]. exact Hd.
        -- lra.
        -- lra.
Qed.

(** X15.  For a design with two states (and at least one input and one
    output) the closed-loop cell forms [F], a 4 x 4 array, and the real
    eigenvalues of [F] are exactly those of [A - B K] together with
    those of [A - L C]: the separation principle, in both directions. *)
Theorem closed_loop_spectrum (m p : nat) (A B C K L : array) :
  (0 < m)%nat -> (0 < p)%nat ->
  has_shape 2 2 A -> has_shape 2 m B -> has_shape m 2 K ->
  has_shape 2 p L -> has_shape p 2 C ->
  exists P S Fm : array,
    sub A (mm B K) = inr P /\
    sub A (mm L C) = inr S /\
    Design.F A B C K L = inr Fm /\
    has_shape 4 4 Fm /\
    forall lam : R,
      eigenvalue Fm lam <-> eigenvalue P lam \/ eigenvalue S lam.
Proof.
  intros Hm Hp HA HB HK HL HC.
  assert (H2 : (0 < 2)%nat) by lia.
  pose proof (has_shape_mm_cols _ _ _ _ _ HB HK Hm) as HBK.
  pose proof (has_shape_mm_cols _ _ _ _ _ (has_shape_neg _ _ _ HB) HK Hm)
    as HQ.
  pose proof (has_shape_mm_cols _ _ _ _ _ HL HC Hp) as HLC.
  pose proof (has_shape_zip_rows Rminus _ _ _ _ HA HBK) as HP.
  pose proof (has_shape_zip_rows Rminus _ _ _ _ HA HLC) as HS.
  exists (zip_rows Rminus A (mm B K)), (zip_rows Rminus A (mm L C)).
  exists (map (fun r => fst r ++ snd r)
              (combine (zip_rows Rminus A (mm B K)) (mm (neg B) K))
          ++ map (fun r => fst r ++ snd r)
                 (combine (zeros 2 2) (zip_rows Rminus A (mm L C)))).
  split; [exact (sub_conforming _ _ _ _ HA HBK H2)|].
  split; [exact (sub_conforming _ _ _ _ HA HLC H2)|].
  split; [|split].
  - unfold Design.F.
    rewrite (matmul_conforming _ _ _ _ _ HB HK H2). cbn [Py.bind].
    rewrite (sub_conforming _ _ _ _ HA HBK H2). cbn [Py.bind].
    rewrite (matmul_conforming _ _ _ _ _ (has_shape_neg _ _ _ HB) HK H2).
    cbn [Py.bind].
    rewrite (matmul_conforming _ _ _ _ _ HL HC H2). cbn [Py.bind].
    rewrite (sub_conforming _ _ _ _ HA HLC H2). cbn [Py.bind].
    destruct (shape_2_2 _ HP) as (a & b & c & d & ->).
    destruct (shape_2_2 _ HQ) as (q1 & q2 & q3 & q4 & ->).
    destruct (shape_2_2 _ HS) as (s1 & s2 & s3 & s4 & ->).
    reflexivity.
  - destruct (shape_2_2 _ HP) as (a & b & c & d & ->).
    destruct (shape_2_2 _ HQ) as (q1 & q2 & q3 & q4 & ->).
    destruct (shape_2_2 _ HS) as (s1 & s2 & s3 & s4 & ->).
    split; [reflexivity|]. repeat constructor.
  - intros lam. split.
    + apply (block_triangular_eigenvalue 2 2 _ (mm (neg B) K) _ lam);
        try assumption.
    + now apply block_triangular_eigenvalue_2.
Qed.

(** X16.  For a design with a number of states other than two, the
    spacecraft's six among them, the closed-loop cell ends in
    [ValueError]: the block [np.zeros((2, 2))] does not fit beside [A -
    L C]. *)
Theorem closed_loop_needs_two_states (n m p : nat) (A B C K L : array) :
  (0 < n)%nat -> (0 < m)%nat -> (0 < p)%nat ->
  has_shape n n A -> has_shape n m B -> has_shape m n K ->
  has_shape n p L -> has_shape p n C ->
  n <> 2%nat ->
  Design.F A B C K L = inl Py.ValueError.
Proof.
  intros Hn Hm Hp HA HB HK HL HC Hne.
  pose proof (has_shape_mm_cols _ _ _ _ _ HB HK Hm) as HBK.
  pose proof (has_shape_mm_cols _ _ _ _ _ (has_shape_neg _ _ _ HB) HK Hm)
    as HQ.
  pose proof (has_shape_mm_cols _ _ _ _ _ HL HC Hp) as HLC.
  pose proof (has_shape_zip_rows Rminus _ _ _ _ HA HBK) as HP.
  pose proof (has_shape_zip_rows Rminus _ _ _ _ HA HLC) as HS.
  unfold Design.F.
  rewrite (matmul_conforming _ _ _ _ _ HB HK Hn). cbn [Py.bind].
  rewrite (sub_conforming _ _ _ _ HA HBK Hn). cbn [Py.bind].
  rewrite (matmul_conforming _ _ _ _ _ (has_shape_neg _ _ _ HB) HK Hn).
  cbn [Py.bind].
  rewrite (matmul_conforming _ _ _ _ _ HL HC Hn). cbn [Py.bind].
  rewrite (sub_conforming _ _ _ _ HA HLC Hn). cbn [Py.bind].
  unfold block. cbn [strips hstack Py.bind Py.ok].
  destruct HP as [HPl _]. destruct HQ as [HQl _]. destruct HS as [HSl _].
  unfold nrows. rewrite HPl, HQl, HSl, Nat.eqb_refl. cbn [Py.bind].
  replace (length (zeros 2 2)) with 2%nat by reflexivity.
  destruct (Nat.eqb_spec 2 n) as [E|_]; [congruence|].
  reflexivity.
Qed.

Lemma has_shape_app r1 r2 c X Y :
  has_shape r1 c X -> has_shape r2 c Y -> has_shape (r1 + r2) c (X ++ Y).
Proof.
  intros [HXl HXr] [HYl HYr]. split.
  - rewrite length_app. congruence.
  - apply Forall_app. now split.
Qed.

Lemma Wo_conforming (n p : nat) (A C : array) :
  (0 < n)%nat -> (0 < p)%nat ->
  has_shape n n A -> has_shape p n C ->
  Design.Wo A C = inr (C ++ mm C A ++ mm (mm C A) A).
Proof.
  intros Hn Hp HA HC.
  pose proof (has_shape_mm_cols _ _ _ _ _ HC HA Hn) as HCA.
  pose proof (has_shape_mm_cols _ _ _ _ _ HCA HA Hn) as HCAA.
  unfold Design.Wo.
  rewrite (matmul_conforming _ _ _ _ _ HC HA Hp). cbn [Py.bind].
  rewrite (matmul_conforming _ _ _ _ _ HCA HA Hp). cbn [Py.bind].
  unfold block. cbn [strips hstack vstack Py.bind Py.ok].
  rewrite (has_shape_ncols _ _ _ HCA Hp), (has_shape_ncols _ _ _ HCAA Hp).
  rewrite Nat.eqb_refl. cbn [Py.bind].
  rewrite (has_shape_ncols _ _ _ HC Hp).
  assert (E : ncols (mm C A ++ mm (mm C A) A) = n).
  { apply (has_shape_ncols (p + p)); [|lia].
    now apply has_shape_app. }
  cbv [Py.bind Py.ok]. rewrite E, Nat.eqb_refl. reflexivity.
Qed.

(** X17.  The observability cell forms [Wo] exactly when [C] has as many
    columns as [A] has rows and columns: then [Wo] is the stack of [C],
    [C A] and [C A A] and has three times the rows of [C]; otherwise the
    cell ends in [ValueError]. *)
Theorem Wo_cell_shapes (n p m : nat) (A C : array) :
  (0 < n)%nat -> (0 < p)%nat ->
  has_shape n n A -> has_shape p m C ->
  (m = n ->
   Design.Wo A C = inr (C ++ mm C A ++ mm (mm C A) A) /\
   has_shape (3 * p) n (C ++ mm C A ++ mm (mm C A) A)) /\
  (m <> n -> Design.Wo A C = inl Py.ValueError).
Proof.
  intros Hn Hp HA HC. split.
  - intros ->.
    pose proof (has_shape_mm_cols _ _ _ _ _ HC HA Hn) as HCA.
    pose proof (has_shape_mm_cols _ _ _ _ _ HCA HA Hn) as HCAA.
    split; [now apply Wo_conforming with n p|].
    replace (3 * p)%nat with (p + (p + p))%nat by lia.
    apply has_shape_app; [assumption|now apply has_shape_app].
  - intros Hne. unfold Design.Wo, matmul.
    rewrite (has_shape_ncols _ _ _ HC Hp).
    destruct HA as [HAl _]. unfold nrows. rewrite HAl.
    destruct (Nat.eqb_spec m n) as [E|_]; [congruence|]. reflexivity.
Qed.

Lemma A_rest_shape (th ph : R) : has_shape 6 6 (A_rest th ph).
Proof. split; [reflexivity|]. repeat constructor. Qed.

Lemma A_rest_squared (th ph : R) :
  mm (A_rest th ph) (A_rest th ph) = zeros 6 6.
Proof.
  unfold A_rest.
  cbv [mm zeros repeat map seq ncols nrows column dot length nth].
  list_eq; ring.
Qed.

(** X18.  For the state matrix of the spacecraft at rest, whose square
    is zero, the three blocks that the cell stacks decide observability:
    [Wo] has full column rank exactly when the stack of all six blocks
    [C A^i] has. *)
Theorem Wo_decides_observability_at_rest (th ph : R) (p : nat) (C : array) :
  (0 < p)%nat -> has_shape p 6 C ->
  exists W : array,
    Design.Wo (A_rest th ph) C = inr W /\
    (full_column_rank W <->
     full_column_rank
       (Design.spec_observability_matrix 6 (A_rest th ph) C)).
Proof.
  intros Hp HC.
  pose proof (A_rest_shape th ph) as HA.
  assert (HW := Wo_conforming 6 p (A_rest th ph) C ltac:(lia) Hp HA HC).
  eexists. split; [exact HW|].
  assert (E3 : C ++ mm C (A_rest th ph)
                 ++ mm (mm C (A_rest th ph)) (A_rest th ph)
               = Design.spec_observability_matrix 3 (A_rest th ph) C).
  { unfold Design.spec_observability_matrix. cbn [right_powers concat].
    now rewrite app_nil_r. }
  rewrite E3.
  assert (N3 : ncols (Design.spec_observability_matrix 3 (A_rest th ph) C)
               = ncols C).
  { unfold Design.spec_observability_matrix. cbn [right_powers concat].
    destruct C; [destruct HC; simpl in *; lia|reflexivity]. }
  assert (N6 : ncols (Design.spec_observability_matrix 6 (A_rest th ph) C)
               = ncols C).
  { unfold Design.spec_observability_matrix. cbn [right_powers concat].
    destruct C; [destruct HC; simpl in *; lia|reflexivity]. }
  unfold full_column_rank. rewrite N3, N6.
  split; intros H v Hlen Hz; apply (H v Hlen);
    now apply (three_blocks_suffice 6 (A_rest th ph) C v HA
                 (A_rest_squared th ph)).
Qed.

(** The two-state design of the examples. *)
Lemma closed_loop_spectrum_witness :
  exists P S Fm : array,
    sub A2 (mm B2 K2) = inr P /\
    sub A2 (mm L2 C2) = inr S /\
    Design.F A2 B2 C2 K2 L2 = inr Fm /\
    has_shape 4 4 Fm.
Proof.
  destruct (closed_loop_spectrum 1 1 A2 B2 C2 K2 L2
              Nat.lt_0_1 Nat.lt_0_1
              A2_shape B2_shape K2_shape L2_shape C2_shape)
    as (P & S & Fm & HP & HS & HF & Hs & _).
  exists P, S, Fm. exact (conj HP (conj HS (conj HF Hs))).
Defined.

Lemma zeros_shape (r c : nat) : has_shape r c (zeros r c).
Proof.
  unfold zeros. split; [apply repeat_length|].
  apply Forall_forall. intros row Hrow.
  apply repeat_spec in Hrow. subst row. apply repeat_length.
Qed.

(** Six states, four inputs and two outputs. *)
Lemma closed_loop_needs_two_states_witness :
  Design.F A6 B6_none C6_blind (zeros 4 6) (zeros 6 2) = inl Py.ValueError.
Proof.
  apply (closed_loop_needs_two_states 6 4 2);
    try apply zeros_shape; try exact A6_shape; try lia.
Defined.

(** The chain of six integrators observed at its first state. *)
Lemma Wo_cell_shapes_witness :
  Design.Wo A6 C6 = inr (C6 ++ mm C6 A6 ++ mm (mm C6 A6) A6) /\
  has_shape 3 6 (C6 ++ mm C6 A6 ++ mm (mm C6 A6) A6).
Proof.
  exact (proj1 (Wo_cell_shapes 6 1 6 A6 C6 ltac:(lia) ltac:(lia)
                  A6_shape C6_shape) eq_refl).
Defined.

(** The spacecraft at the zero attitude with a sensor of its yaw. *)
Lemma Wo_decides_observability_at_rest_witness :
  exists W : array,
    Design.Wo (A_rest 0 0) C6 = inr W /\
    (full_column_rank W <->
     full_column_rank
       (Design.spec_observability_matrix 6 (A_rest 0 0) C6)).
Proof.
  exact (Wo_decides_observability_at_rest 0 0 1 C6 Nat.lt_0_1 C6_shape).
Defined.
End DesignShapes.
